(** * ChessSpace: the multiplayer room coordinator of [server/server.ts]

    A shallow embedding of the Socket.IO event handlers of the server
    ([create_room], [join_room], [make_move], [offer_draw],
    [draw_response], [resign_game], [disconnect]) as pure functions on the
    global [rooms] table, each returning the new table and the list of
    events it emits, followed by the properties of the room lifecycle.

    The chess rules come from the [chess.js] library, which the server
    only calls through [new Chess()], [game.turn()] and [game.move(move)];
    they are an interface here ([ChessEngine]). *)

From Stdlib Require Import List Ascii String Bool Arith NArith ZArith Lia Sorted.
From Stdlib Require Import DecimalString DecimalFacts DecimalN.
Import ListNotations.
Open Scope string_scope.

(** ** Data model *)

(** [color: 'white' | 'black'] *)
Inductive Color : Set := white | black.

(** [gameState: 'waiting' | 'playing' | 'finished'] *)
Inductive GameState : Set := waiting | playing | finished.

(** What [game.turn()] returns: ['w'] or ['b']. *)
Inductive Side : Set := w | b.

(** The [move] object a client sends: [{ from, to, promotion? }]. *)
Record Move : Set := { from : string; to : string; promotion : option string }.

(** The part of [chess.js] the server uses.  [move g m] is [Some g'] when
    [game.move(m)] makes the move, [g'] being the game afterwards, and
    [None] when it refuses the move, the game being unchanged.  A refusal
    is a falsy result or an exception, according to the version of the
    library: [throws g m] tells whether [game.move(m)] refuses by
    throwing. *)
Class ChessEngine (Game : Type) : Type := {
  new_Chess : Game;
  turn : Game -> Side;
  move : Game -> Move -> option Game;
  throws : Game -> Move -> bool
}.

Definition Color_eqb (c d : Color) : bool :=
  match c, d with
  | white, white | black, black => true
  | _, _ => false
  end.

Definition color_string (c : Color) : string :=
  match c with white => "white" | black => "black" end.

(** [{ color, name }], the value stored per socket id. *)
Record Player : Set := { color : Color; name : string }.

(** [players: { [socketId: string]: ... }].  Socket ids are not integer
    keys, so the object enumerates them in insertion order: an association
    list, oldest entry first. *)
Definition Players : Set := list (string * Player).

Definition players_get (id : string) (ps : Players) : option Player :=
  match find (fun e => String.eqb (fst e) id) ps with
  | Some e => Some (snd e)
  | None => None
  end.

(** [players[id] = p]: an existing key keeps its place, a new one goes last. *)
Fixpoint players_set (id : string) (p : Player) (ps : Players) : Players :=
  match ps with
  | [] => [(id, p)]
  | e :: t => if String.eqb (fst e) id then (id, p) :: t
              else e :: players_set id p t
  end.

(** [delete players[id]] *)
Definition players_delete (id : string) (ps : Players) : Players :=
  filter (fun e => negb (String.eqb (fst e) id)) ps.

(** [Object.keys(players)] *)
Definition keys (ps : Players) : list string := map fst ps.

(** [playerIds.includes(id)] *)
Definition includes (id : string) (ids : list string) : bool :=
  existsb (String.eqb id) ids.

(** [playerIds.find(id => id !== socket.id)] *)
Definition find_opponent (id : string) (ids : list string) : option string :=
  find (fun i => negb (String.eqb i id)) ids.

(** The message payloads, one constructor per event name the server emits. *)
Inductive Event : Set :=
| ev_room_created (room_code : string) (player_color : Color) (status : GameState)
| ev_room_joined (room_code : string) (player_color : Color) (opponent : string)
                 (status : GameState)
| ev_opponent_joined (opponent : string) (status : GameState)
| ev_chess_move (from to promotion player : string) (color : Color)
| ev_draw_offered
| ev_draw_response (accepted : bool)
| ev_game_ended (result reason : string)
| ev_opponent_resigned
| ev_player_disconnected (player color game_state : string)
| ev_error (message : string).

(** Where an event goes: [socket.emit] answers the calling socket,
    [socket.to(r).emit] reaches the sockets of Socket.IO room [r] except the
    caller, [io.to(r).emit] all sockets of room [r].  A socket is put into
    the Socket.IO room of a game by [socket.join(roomId)] and is always in
    the room named by its own id. *)
Inductive Target : Set :=
| socket_emit (id : string)
| socket_to (room : string) (sender : string)
| io_to (room : string).

Definition Emit : Set := (Target * Event)%type.

(** [rooms] is an object literal, so these names are defined on it too,
    inherited from [Object.prototype]. *)
Definition Object_prototype : list string :=
  ["constructor"; "__proto__"; "hasOwnProperty"; "isPrototypeOf";
   "propertyIsEnumerable"; "toLocaleString"; "toString"; "valueOf";
   "__defineGetter__"; "__defineSetter__"; "__lookupGetter__";
   "__lookupSetter__"].

Definition inherited (key : string) : bool :=
  existsb (String.eqb key) Object_prototype.

(** The property name of a room code: [n.toString()]. *)
Definition roomKey (k : N) : string := NilZero.string_of_uint (N.to_uint k).

(** [Math.floor(1000 + Math.random() * 9000)], where [rnd] stands for
    the integer part of [Math.random() * 9000]. *)
Definition draw_roomId (rnd : N) : N := (1000 + rnd)%N.

Section Coordinator.

Context {Game : Type} {engine : ChessEngine Game}.

(** One entry of [rooms]. *)
Record Room : Type := {
  players : Players;
  game : Game;
  gameState : GameState
}.

(** The global [rooms] object.  Its keys are the decimal forms of integers
    between 1000 and 9999, which a JavaScript object enumerates in
    ascending numeric order whatever the insertion order: an association
    list kept sorted by code. *)
Definition Rooms : Type := list (N * Room).

(** [rooms[room_id]], for the entries of the table itself. *)
Definition rooms_get (room_id : string) (rooms : Rooms) : option Room :=
  match find (fun e => String.eqb (roomKey (fst e)) room_id) rooms with
  | Some e => Some (snd e)
  | None => None
  end.

(** The entry stored under the code [k], if any. *)
Definition rooms_lookup (k : N) (rooms : Rooms) : option Room :=
  match find (fun e => N.eqb (fst e) k) rooms with
  | Some e => Some (snd e)
  | None => None
  end.

(** [rooms[roomId] = room]: replaces the entry of a code already present,
    otherwise adds one at the code's place in the enumeration order. *)
Fixpoint rooms_set (k : N) (room : Room) (rooms : Rooms) : Rooms :=
  match rooms with
  | [] => [(k, room)]
  | e :: t =>
      if N.ltb k (fst e) then (k, room) :: rooms
      else if N.eqb k (fst e) then (k, room) :: t
      else e :: rooms_set k room t
  end.

(** [delete rooms[roomId]] *)
Definition rooms_delete (k : N) (rooms : Rooms) : Rooms :=
  filter (fun e => negb (N.eqb (fst e) k)) rooms.

(** A mutation of the room object stored under [k]. *)
Definition rooms_update (k : N) (f : Room -> Room) (rooms : Rooms) : Rooms :=
  map (fun e => if N.eqb (fst e) k then (fst e, f (snd e)) else e) rooms.

(** The loop every handler but [create_room] and [join_room] starts with:
    the first room, in enumeration order, that has the socket among its
    players. *)
Definition find_player_room (id : string) (rooms : Rooms) : option (N * Room) :=
  find (fun e => match players_get id (players (snd e)) with
                 | Some _ => true
                 | None => false
                 end) rooms.

Definition set_players (ps : Players) (r : Room) : Room :=
  {| players := ps; game := game r; gameState := gameState r |}.

Definition set_game (g : Game) (r : Room) : Room :=
  {| players := players r; game := g; gameState := gameState r |}.

Definition set_gameState (s : GameState) (r : Room) : Room :=
  {| players := players r; game := game r; gameState := s |}.

(** ** The handlers

    Each takes the id of the calling socket, the arguments of the message
    and the [rooms] table, and returns the table afterwards with the
    events emitted, in order.  An event is recorded with the socket or the
    Socket.IO room it is addressed to; who is subscribed to a Socket.IO
    room ([socket.join(roomId)] in [create_room] and [join_room]) is kept
    by Socket.IO, not in [rooms], and is not part of the table. *)

Definition create_room (id playerName : string) (rnd : N) (rooms : Rooms)
  : Rooms * list Emit :=
  let roomId := draw_roomId rnd in
  (rooms_set roomId
     {| players := [(id, {| color := white; name := playerName |})];
        game := new_Chess;
        gameState := waiting |} rooms,
   [(socket_emit id, ev_room_created (roomKey roomId) white waiting)]).

Definition join_room (id room_id player_name : string) (rooms : Rooms)
  : Rooms * list Emit :=
  match find (fun e => String.eqb (roomKey (fst e)) room_id) rooms with
  | None =>
      if inherited room_id then
        (* [rooms[room_id]] is a member of [Object.prototype], which has no
           [players]: [Object.keys(room.players)] throws *)
        (rooms, [])
      else (rooms, [(socket_emit id, ev_error "Room not found")])
  | Some (k, room) =>
      if Nat.leb 2 (List.length (keys (players room))) then
        (rooms, [(socket_emit id, ev_error "Room is full")])
      else
        let playerIds := keys (players room) in
        if includes id playerIds then
          (rooms, [(socket_emit id, ev_error "You are already in this room")])
        else
          let joined := fun r =>
            set_gameState playing
              (set_players
                 (players_set id {| color := black; name := player_name |}
                    (players r)) r) in
          let rooms' := rooms_update k joined rooms in
          match playerIds with
          | [] =>
              (* [playerIds[0]] is undefined and reading the name of
                 [room.players[undefined]] throws: the handler stops after
                 the mutation, before any event. *)
              (rooms', [])
          | opponentId :: _ =>
              match players_get opponentId (players (joined room)) with
              | None => (rooms', [])
              | Some opp =>
                  (rooms',
                   [(socket_emit id,
                     ev_room_joined room_id black (name opp) playing);
                    (socket_to room_id id,
                     ev_opponent_joined player_name playing)])
              end
          end
  end.

(** [move.promotion || 'q']: a missing or empty promotion reads as ["q"]. *)
Definition promotion_or_q (m : Move) : string :=
  match promotion m with
  | Some p => if String.eqb p "" then "q" else p
  | None => "q"
  end.

Definition make_move (id : string) (m : Move) (rooms : Rooms)
  : Rooms * list Emit :=
  match find_player_room id rooms with
  | None => (rooms, [(socket_emit id, ev_error "Not in a game")])
  | Some (roomId, playerRoom) =>
      match players_get id (players playerRoom) with
      | Some player =>
          if Color_eqb (color player)
               (match turn (game playerRoom) with w => white | b => black end)
          then
            match move (game playerRoom) m with
            | Some g' =>
                (rooms_update roomId (set_game g') rooms,
                 [(io_to (roomKey roomId),
                   ev_chess_move (from m) (to m) (promotion_or_q m)
                     (name player) (color player))])
            | None =>
                if throws (game playerRoom) m then
                  (* the exception leaves the handler: nothing is sent *)
                  (rooms, [])
                else (rooms, [(socket_emit id, ev_error "Invalid move")])
            end
          else (rooms, [(socket_emit id, ev_error "Not your turn")])
      | None => (rooms, [(socket_emit id, ev_error "Not your turn")])
      end
  end.

Definition offer_draw (id : string) (rooms : Rooms) : Rooms * list Emit :=
  match find_player_room id rooms with
  | None => (rooms, [])
  | Some (roomId, playerRoom) =>
      match find_opponent id (keys (players playerRoom)) with
      | Some opponentId => (rooms, [(socket_to opponentId id, ev_draw_offered)])
      | None => (rooms, [])
      end
  end.

Definition draw_response (id : string) (accepted : bool) (rooms : Rooms)
  : Rooms * list Emit :=
  match find_player_room id rooms with
  | None => (rooms, [])
  | Some (roomId, playerRoom) =>
      match find_opponent id (keys (players playerRoom)) with
      | Some opponentId =>
          if accepted then
            (rooms_update roomId (set_gameState finished) rooms,
             [(socket_to opponentId id, ev_draw_response accepted);
              (io_to (roomKey roomId),
               ev_game_ended "draw" "Draw by agreement")])
          else
            (rooms, [(socket_to opponentId id, ev_draw_response accepted)])
      | None => (rooms, [])
      end
  end.

Definition resign_game (id : string) (rooms : Rooms) : Rooms * list Emit :=
  match find_player_room id rooms with
  | None => (rooms, [])
  | Some (roomId, playerRoom) =>
      match find_opponent id (keys (players playerRoom)) with
      | Some opponentId =>
          (rooms_update roomId (set_gameState finished) rooms,
           [(socket_to opponentId id, ev_opponent_resigned)])
      | None => (rooms, [])
      end
  end.

(** [x?.name || 'Unknown'] and [x?.color || 'unknown'] for the result [x]
    of a lookup in [players]. *)
Definition name_or_Unknown (x : option Player) : string :=
  match x with
  | Some p => if String.eqb (name p) "" then "Unknown" else name p
  | None => "Unknown"
  end.

Definition color_or_unknown (x : option Player) : string :=
  match x with
  | Some p => color_string (color p)
  | None => "unknown"
  end.

Definition disconnect (id : string) (rooms : Rooms) : Rooms * list Emit :=
  match find_player_room id rooms with
  | None => (rooms, [])
  | Some (roomId, room) =>
      (* [delete room.players[socket.id]] comes first ... *)
      let leave := fun r => set_players (players_delete id (players r)) r in
      let rooms' := rooms_update roomId leave rooms in
      (* ... and the payload is read from [room.players] afterwards *)
      let ps := players (leave room) in
      let payload :=
        ev_player_disconnected (name_or_Unknown (players_get id ps))
          (color_or_unknown (players_get id ps)) "finished" in
      (match keys ps with
       | [] => rooms_delete roomId rooms'
       | _ :: _ => rooms'
       end,
       [(socket_to (roomKey roomId) id, payload)])
  end.

(** ** The server as a transition system *)

(** A message from a client, or the loss of its connection. *)
Inductive Intent : Set :=
| CreateRoom (playerName : string) (rnd : N)
| JoinRoom (room_id player_name : string)
| MakeMove (m : Move)
| OfferDraw
| RespondDraw (accepted : bool)
| Resign
| Disconnect.

Definition handle (id : string) (i : Intent) (rooms : Rooms)
  : Rooms * list Emit :=
  match i with
  | CreateRoom playerName rnd => create_room id playerName rnd rooms
  | JoinRoom room_id player_name => join_room id room_id player_name rooms
  | MakeMove m => make_move id m rooms
  | OfferDraw => offer_draw id rooms
  | RespondDraw accepted => draw_response id accepted rooms
  | Resign => resign_game id rooms
  | Disconnect => disconnect id rooms
  end.

(** [Math.random()] lies in [0, 1), so the integer part of
    [Math.random() * 9000] is below 9000. *)
Definition valid_intent (i : Intent) : Prop :=
  match i with
  | CreateRoom _ rnd => (rnd < 9000)%N
  | _ => True
  end.

(** The table after a sequence of messages, oldest first. *)
Fixpoint run (tr : list (string * Intent)) (rooms : Rooms) : Rooms :=
  match tr with
  | [] => rooms
  | (id, i) :: tr' => run tr' (fst (handle id i rooms))
  end.

(** The tables the server can be in: it starts with [rooms = {}]. *)
Inductive reachable : Rooms -> Prop :=
| reachable_init : reachable []
| reachable_step rooms id i :
    reachable rooms -> valid_intent i -> reachable (fst (handle id i rooms)).

End Coordinator.

Arguments Room Game : clear implicits.
Arguments Rooms Game : clear implicits.

(** ** Notions the properties are stated with *)

Section Notions.

Context {Game : Type} {engine : ChessEngine Game}.

(** The codes of the live rooms, in enumeration order. *)
Definition codes (rooms : Rooms Game) : list N := map fst rooms.

(** The table lists its rooms by strictly increasing code. *)
Definition ascending (rooms : Rooms Game) : Prop :=
  StronglySorted N.lt (codes rooms).

(** What holds of every entry of a table the server can be in: a code of
    four digits, and one or two players. *)
Definition well_formed_entry (e : N * Room Game) : Prop :=
  (1000 <= fst e <= 9999)%N /\
  1 <= List.length (players (snd e)) <= 2.

(** Whether the socket is among the players of the room. *)
Definition is_member (id : string) (room : Room Game) : bool :=
  match players_get id (players room) with
  | Some _ => true
  | None => false
  end.

(** The live rooms that have the socket among their players. *)
Definition rooms_of (id : string) (rooms : Rooms Game) : Rooms Game :=
  filter (fun e => is_member id (snd e)) rooms.

(** The order of the lifecycle: waiting, then playing, then finished. *)
Definition phase_rank (s : GameState) : nat :=
  match s with waiting => 0 | playing => 1 | finished => 2 end.

(** The move with the promotion piece filled in as a queen. *)
Definition with_queen (m : Move) : Move :=
  {| from := from m; to := to m; promotion := Some "q" |}.

(** The colour the room has assigned to the socket. *)
Definition assigned_color (id : string) (room : Room Game) : option Color :=
  option_map color (players_get id (players room)).

(** The colour whose turn it is in the room's game:
    [game.turn() === 'w' ? 'white' : 'black']. *)
Definition side_to_move (room : Room Game) : Color :=
  match turn (game room) with w => white | b => black end.


(** Messages that put the calling socket into a room. *)
Definition enters_room (i : Intent) : bool :=
  match i with
  | CreateRoom _ _ | JoinRoom _ _ => true
  | _ => false
  end.

(** The tables reached when no client asks to create or join a room while
    it is a player of one. *)
Inductive reachable_disciplined : Rooms Game -> Prop :=
| disciplined_init : reachable_disciplined []
| disciplined_step rooms id i :
    reachable_disciplined rooms -> valid_intent i ->
    (enters_room i = true -> rooms_of id rooms = []) ->
    reachable_disciplined (fst (handle id i rooms)).

(** *** The statements of the specification that the server does not meet *)

(** A move from a player of a room whose colour there is not the one to
    move is answered "Not your turn" and changes nothing. *)
Definition out_of_turn_move_refused : Prop :=
  forall rooms id m k room c,
    reachable rooms ->
    rooms_lookup k rooms = Some room ->
    assigned_color id room = Some c ->
    c <> side_to_move room ->
    make_move id m rooms
    = (rooms, [(socket_emit id, ev_error "Not your turn")]).

(** Creating a room leaves every live room as it was. *)
Definition create_room_keeps_live_rooms : Prop :=
  forall rooms id playerName rnd k room,
    reachable rooms -> (rnd < 9000)%N ->
    rooms_lookup k rooms = Some room ->
    rooms_lookup k (fst (create_room id playerName rnd rooms)) = Some room.


(** The phase of a room only moves forward. *)
Definition phase_never_moves_back : Prop :=
  forall rooms id i k room room',
    reachable rooms -> valid_intent i ->
    rooms_lookup k rooms = Some room ->
    rooms_lookup k (fst (handle id i rooms)) = Some room' ->
    phase_rank (gameState room) <= phase_rank (gameState room').

(** A socket is a player of at most one live room. *)
Definition one_room_per_connection : Prop :=
  forall rooms id, reachable rooms -> List.length (rooms_of id rooms) <= 1.

End Notions.

(** An engine that accepts every move and whose game is the list of the
    moves it was given, white moving first: it shows what the server hands
    to [game.move]. *)
#[local] Instance recording_engine : ChessEngine (list Move) := {
  new_Chess := [];
  turn g := if Nat.even (List.length g) then w else b;
  move g m := Some (g ++ [m])%list;
  throws _ _ := false
}.

(** Alice creates a room whose code is drawn as 1234, Bob joins it. *)
Definition alice_and_bob : list (string * Intent) :=
  [("A", CreateRoom "Alice" 234); ("B", JoinRoom "1234" "Bob")].

(** The table once Bob has joined Alice's room. *)
Definition room_1234 : Rooms (list Move) := run alice_and_bob [].

(** The room of that table, before any move. *)
Definition alice_bob_room : Room (list Move) :=
  {| players := [("A", {| color := white; name := "Alice" |});
                 ("B", {| color := black; name := "Bob" |})];
     game := [];
     gameState := playing |}.

(** White's pawn move to the last rank, sent without a promotion piece. *)
Definition e7e8 : Move := {| from := "e7"; to := "e8"; promotion := None |}.

Definition e2e4 : Move := {| from := "e2"; to := "e4"; promotion := None |}.
Definition d2d4 : Move := {| from := "d2"; to := "d4"; promotion := None |}.

(** Alice creates room 5000, Bob joins it, Alice plays e2-e4 there, then
    creates a second room, 1000. *)
Definition alice_in_two_rooms : list (string * Intent) :=
  [("A", CreateRoom "Alice" 4000); ("B", JoinRoom "5000" "Bob");
   ("A", MakeMove e2e4); ("A", CreateRoom "Alice" 0)].

(** The rank of a square in algebraic notation: its second character. *)
Definition rank (square : string) : string := String.substring 1 1 square.

(** A move from the seventh rank to the eighth, or from the second to the
    first. *)
Definition to_last_rank (m : Move) : bool :=
  String.eqb (rank (from m)) "7" && String.eqb (rank (to m)) "8"
  || String.eqb (rank (from m)) "2" && String.eqb (rank (to m)) "1".

(** [chess.js] makes a pawn's move to the last rank only when the move
    object names the piece to promote to, and refuses other moves by an
    exception.  This engine stands for it in the game below: it plays what
    it is given, white first, except a move to the last rank sent without
    a promotion piece, which it refuses by throwing. *)
Definition promotion_engine : ChessEngine (list Move) := {|
  new_Chess := [];
  turn := fun g => if Nat.even (List.length g) then w else b;
  move := fun g m =>
            if to_last_rank m
               && match promotion m with
                  | Some p => String.eqb p ""
                  | None => true
                  end
            then None else Some (g ++ [m])%list;
  throws := fun _ _ => true
|}.

Definition plain (from to : string) : Move :=
  {| from := from; to := to; promotion := None |}.

(** 1. h4 g5 2. hxg5 a6 3. g6 a5 4. gxh7 a4: White's pawn stands on h7
    and can take the knight on g8, promoting. *)
Definition promotion_game : list (string * Intent) :=
  (alice_and_bob
     ++ [("A", MakeMove (plain "h2" "h4")); ("B", MakeMove (plain "g7" "g5"));
         ("A", MakeMove (plain "h4" "g5")); ("B", MakeMove (plain "a7" "a6"));
         ("A", MakeMove (plain "g5" "g6")); ("B", MakeMove (plain "a6" "a5"));
         ("A", MakeMove (plain "g6" "h7")); ("B", MakeMove (plain "a5" "a4"))])%list.

(** The capture h7xg8 as the client sends it: origin and destination only. *)
Definition h7g8 : Move := plain "h7" "g8".

(** ** Notions for the further properties *)

Section FurtherNotions.

Context {Game : Type} {engine : ChessEngine Game}.

(** A character between ['0'] and ['9']. *)
Definition is_digit (c : Ascii.ascii) : bool :=
  Nat.leb 48 (Ascii.nat_of_ascii c) && Nat.leb (Ascii.nat_of_ascii c) 57.

(** A string of exactly four decimal digits. *)
Definition four_digits (s : string) : bool :=
  Nat.eqb (String.length s) 4 && forallb is_digit (list_ascii_of_string s).

(** The entries of [players] whose colour is white. *)
Definition whites (ps : Players) : Players :=
  filter (fun e => Color_eqb (color (snd e)) white) ps.

(** What holds of the players of every room the server can hold: their
    socket ids are distinct and at most one of them plays white. *)
Definition tidy_players (e : N * Room Game) : Prop :=
  NoDup (keys (players (snd e))) /\
  List.length (whites (players (snd e))) <= 1.

End FurtherNotions.

(** ** The Stockfish worker of the client ([StockfishManager])

    The manager owns a web worker, a readiness flag and the two callbacks
    of the promise it has handed out for the search in progress.  A promise
    is named by a number; the calls made on the worker and on the promises
    are the effects of each method. *)

Module Stockfish.

(** [n.toString()] of a non-negative integer, as in [`go depth ${depth}`]. *)
Definition decimal (n : N) : string := NilZero.string_of_uint (N.to_uint n).

(** [s.split(c)] for a one-character separator. *)
Fixpoint split (c : Ascii.ascii) (s : string) : list string :=
  match s with
  | EmptyString => [EmptyString]
  | String x rest =>
      if Ascii.eqb x c then EmptyString :: split c rest
      else match split c rest with
           | word :: words => String x word :: words
           | [] => [String x EmptyString]
           end
  end.


(** The fields of the manager: [worker] is [false] once it is [null]. *)
Record Manager : Set := {
  worker : bool;
  isReady : bool;
  bestMoveResolver : option nat;
  bestMoveRejecter : option nat
}.

Inductive Effect : Set :=
| post (message : string)            (* [worker.postMessage(message)] *)
| terminate_worker                   (* [worker.terminate()] *)
| resolve (promise : nat) (move : option string)
| reject (promise : nat) (message : string).

(** [this.worker?.postMessage(message)] *)
Definition postMessage (message : string) (m : Manager) : list Effect :=
  if worker m then [post message] else [].

(** The manager as the constructor leaves it, with what [initWorker]
    posted. *)
Definition constructed : Manager * list Effect :=
  let m := {| worker := true; isReady := false;
              bestMoveResolver := None; bestMoveRejecter := None |} in
  (m, postMessage "uci" m ++ postMessage "isready" m)%list.

Definition settle (m : Manager) : Manager :=
  {| worker := worker m; isReady := isReady m;
     bestMoveResolver := None; bestMoveRejecter := None |}.

Definition handleMessage (line : string) (m : Manager)
  : Manager * list Effect :=
  if String.eqb line "readyok" then
    ({| worker := worker m; isReady := true;
        bestMoveResolver := bestMoveResolver m;
        bestMoveRejecter := bestMoveRejecter m |}, [])
  else if String.prefix "bestmove" line then
    let move := nth_error (split " "%char line) 1 in
    match bestMoveResolver m with
    | Some promise => (settle m, [resolve promise move])
    | None => (m, [])
    end
  else (m, []).

Definition handleError (m : Manager) : Manager * list Effect :=
  match bestMoveRejecter m with
  | Some promise =>
      (settle m,
       [reject promise "Stockfish worker error. See console for details."])
  | None => (m, [])
  end.

(** [getBestMove(fen, depth)]; [promise] names the promise it returns. *)
Definition getBestMove (promise : nat) (fen : string) (depth : N) (m : Manager)
  : Manager * list Effect :=
  if negb (isReady m)
     || match bestMoveResolver m with Some _ => true | None => false end
  then (m, [reject promise "Stockfish is not ready or is already thinking."])
  else
    let m' := {| worker := worker m; isReady := isReady m;
                 bestMoveResolver := Some promise;
                 bestMoveRejecter := Some promise |} in
    (m',
     postMessage "ucinewgame" m'
       ++ postMessage ("position fen " ++ fen) m'
       ++ postMessage ("go depth " ++ decimal depth) m')%list.

Definition terminate (m : Manager) : Manager * list Effect :=
  ({| worker := false; isReady := isReady m;
      bestMoveResolver := bestMoveResolver m;
      bestMoveRejecter := bestMoveRejecter m |},
   if worker m then [terminate_worker] else []).

(** What happens to the manager: a call of its two public methods, a
    message or an error from the worker. *)
Inductive Call : Set :=
| GetBestMove (promise : nat) (fen : string) (depth : N)
| Terminate
| Message (line : string)
| Error.

Definition step (c : Call) (m : Manager) : Manager * list Effect :=
  match c with
  | GetBestMove promise fen depth => getBestMove promise fen depth m
  | Terminate => terminate m
  | Message line => handleMessage line m
  | Error => handleError m
  end.

(** The effects of a sequence of calls, in order. *)
Fixpoint effects (calls : list Call) (m : Manager) : list Effect :=
  match calls with
  | [] => []
  | c :: calls' => (snd (step c m) ++ effects calls' (fst (step c m)))%list
  end.

(** The promises a sequence of calls creates. *)
Fixpoint promises (calls : list Call) : list nat :=
  match calls with
  | [] => []
  | GetBestMove promise _ _ :: calls' => promise :: promises calls'
  | _ :: calls' => promises calls'
  end.

(** The promises a list of effects resolves or rejects, one entry per call
    of a [resolve] or [reject] callback. *)
Fixpoint settled (es : list Effect) : list nat :=
  match es with
  | [] => []
  | resolve promise _ :: es' => promise :: settled es'
  | reject promise _ :: es' => promise :: settled es'
  | _ :: es' => settled es'
  end.

Definition is_post (e : Effect) : bool :=
  match e with post _ => true | _ => false end.

(** [makeMove(from, to)] of the client: the argument it gives
    [game.move]. *)
Definition makeMove (from to : string) : Move :=
  {| from := from; to := to; promotion := Some "q" |}.

(** The move [makeAIMove] plays for the answer [bestMoveUci] of the
    worker, none when the answer is undefined or empty. *)
Definition makeAIMove (bestMoveUci : option string) : option Move :=
  match bestMoveUci with
  | Some uci =>
      if String.eqb uci "" then None
      else Some (makeMove (String.substring 0 2 uci) (String.substring 2 2 uci))
  | None => None
  end.

End Stockfish.

(** ** The move list of the client ([MoveHistory]) *)

Module MoveHistory.





End MoveHistory.

(** ** The clocks of the client ([ChessGame]) *)

Module Clock.

(** [s.padStart(n, c)] for a one-character filler. *)
Definition padStart (n : nat) (c : Ascii.ascii) (s : string) : string :=
  string_of_list_ascii (repeat c (n - String.length s)) ++ s.

(** [formatTime(seconds)] for a whole number of seconds. *)
Definition formatTime (seconds : N) : string :=
  let mins := (seconds / 60)%N in
  let secs := (seconds mod 60)%N in
  Stockfish.decimal mins ++ ":" ++ padStart 2 "0" (Stockfish.decimal secs).

(** The update [setWhiteTime] and [setBlackTime] are given every second:
    the time left afterwards, and whether [handleGameOver] is called. *)
Definition tick (prev : Z) : Z * bool :=
  let newTime := (prev - 1)%Z in
  if (newTime <=? 0)%Z then (0%Z, true) else (newTime, false).

(** The value of a digit character. *)
Definition digit_value (c : Ascii.ascii) : nat := nat_of_ascii c - 48.

(** The string is made of two digits that read as [r]. *)
Definition two_digits_of (r : N) (s : string) : bool :=
  match s with
  | String c1 (String c2 EmptyString) =>
      is_digit c1 && is_digit c2
      && N.eqb (N.of_nat (digit_value c1 * 10 + digit_value c2)) r
  | _ => false
  end.

(** The time left after [n] seconds on the clock. *)
Fixpoint after (n : nat) (time : Z) : Z :=
  match n with
  | 0 => time
  | S n' => after n' (fst (tick time))
  end.

End Clock.

(** ** The squares of the board ([useChessEngine], [ChessBoard]) *)

Module Board.

(** A piece of [game.board()]: [{ type, color }]. *)
Record Piece : Set := { type : string; color : Side }.

(** [game.board()]: eight rows of eight squares, from rank 8 down, each
    square a piece or [null]. *)
Definition Board : Set := list (list (option Piece)).

(** [board[i][j]], for the rows and columns the board has. *)
Definition at_ (board : Board) (i j : nat) : option Piece :=
  match nth_error board i with
  | Some row => match nth_error row j with
                | Some square => square
                | None => None
                end
  | None => None
  end.

Definition Side_eqb (s t : Side) : bool :=
  match s, t with
  | w, w | b, b => true
  | _, _ => false
  end.

(** [piece && piece.type === 'k' && piece.color === turn] *)
Definition is_king (turn : Side) (square : option Piece) : bool :=
  match square with
  | Some piece => String.eqb (type piece) "k" && Side_eqb (color piece) turn
  | None => false
  end.

(** [`${String.fromCharCode(97 + j)}${8 - i}`] *)
Definition square_name (i j : nat) : string :=
  String (ascii_of_nat (97 + j)) (Stockfish.decimal (N.of_nat (8 - i))).

(** [findKing(board, turn)]: the two loops visit the squares row by row. *)
Definition findKing (board : Board) (turn : Side) : option string :=
  match find (fun ij => is_king turn (at_ board (fst ij) (snd ij)))
             (list_prod (seq 0 8) (seq 0 8)) with
  | Some ij => Some (square_name (fst ij) (snd ij))
  | None => None
  end.

Definition files : list string := ["a"; "b"; "c"; "d"; "e"; "f"; "g"; "h"].
Definition ranks : list string := ["8"; "7"; "6"; "5"; "4"; "3"; "2"; "1"].

(** [files.indexOf(file)], when the file is found. *)
Fixpoint indexOf (x : string) (l : list string) : option nat :=
  match l with
  | [] => None
  | y :: l' => if String.eqb y x then Some 0
               else option_map S (indexOf x l')
  end.

(** [parseInt(rank)] for a string of decimal digits. *)
Definition parseInt (s : string) : option nat :=
  match s with
  | EmptyString => None
  | _ => option_map (fun d => N.to_nat (N.of_uint d)) (NilZero.uint_of_string s)
  end.

(** What [renderBoard] computes for the square it draws in row [rankIndex]
    and column [fileIndex] of the screen. *)
Record Drawn : Set := {
  square : string;          (* the name it gives the square *)
  piece : option Piece;     (* the piece it draws there *)
  isCheckmate : bool        (* whether it marks the square as checkmate *)
}.

Definition renderSquare (board : Board) (isFlipped : bool)
    (checkmateSquare : option string) (rankIndex fileIndex : nat)
  : option Drawn :=
  let displayRankIndex := if isFlipped then 7 - rankIndex else rankIndex in
  let displayFileIndex := if isFlipped then 7 - fileIndex else fileIndex in
  match nth_error ranks displayRankIndex, nth_error files displayFileIndex with
  | Some rank, Some file =>
      let square := file ++ rank in
      match parseInt rank, indexOf file files with
      | Some n, Some boardFileIndex =>
          let boardRankIndex := n - 1 in
          Some {| square := square;
                  piece := at_ board (7 - boardRankIndex) boardFileIndex;
                  isCheckmate :=
                    match checkmateSquare with
                    | Some s => String.eqb s square
                    | None => false
                    end |}
      | _, _ => None
      end
  | _, _ => None
  end.

End Board.

(** ** Lookups, updates and the enumeration order *)

(** Case analysis on every comparison of two codes in the goal. *)
Ltac key_cases :=
  repeat match goal with
         | |- context [N.eqb ?x ?y] => destruct (N.eqb_spec x y)
         end;
  subst; try congruence; try reflexivity.

Section TableFacts.

Context {Game : Type} {engine : ChessEngine Game}.

Implicit Types (rooms : Rooms Game) (room : Room Game) (k : N) (id : string).

Lemma to_uint_nonnil (n : N) : N.to_uint n <> Decimal.Nil.
Proof.
  rewrite <- (Unsigned.of_to n) at 1.
  rewrite Unsigned.to_of.
  apply unorm_nonnil.
Qed.

Lemma roomKey_inj (j k : N) : roomKey j = roomKey k -> j = k.
Proof.
  unfold roomKey; intros H.
  apply Unsigned.to_uint_inj.
  assert (E : Some (N.to_uint j) = Some (N.to_uint k)).
  { rewrite <- (NilZero.usu (N.to_uint j)) by apply to_uint_nonnil.
    rewrite <- (NilZero.usu (N.to_uint k)) by apply to_uint_nonnil.
    now rewrite H. }
  now injection E.
Qed.

Lemma roomKey_eqb (j k : N) :
  String.eqb (roomKey j) (roomKey k) = N.eqb j k.
Proof.
  destruct (N.eqb_spec j k) as [->|Hne].
  - apply String.eqb_refl.
  - apply String.eqb_neq. intros H. now apply Hne, roomKey_inj.
Qed.

Lemma rooms_get_roomKey k rooms :
  rooms_get (roomKey k) rooms = rooms_lookup k rooms.
Proof.
  unfold rooms_get, rooms_lookup.
  induction rooms as [|e t IH]; simpl; [reflexivity|].
  rewrite roomKey_eqb.
  destruct (N.eqb (fst e) k); [reflexivity | exact IH].
Qed.

Lemma codes_rooms_update k f rooms :
  codes (rooms_update k f rooms) = codes rooms.
Proof.
  unfold codes, rooms_update. rewrite map_map.
  apply map_ext. intros e. now destruct (N.eqb (fst e) k).
Qed.

Lemma rooms_lookup_update k j f rooms :
  rooms_lookup k (rooms_update j f rooms) =
  if N.eqb k j then option_map f (rooms_lookup k rooms)
  else rooms_lookup k rooms.
Proof.
  unfold rooms_lookup, rooms_update.
  induction rooms as [|e t IH]; simpl.
  - now destruct (N.eqb k j).
  - destruct (N.eqb_spec (fst e) j) as [Hj|Hj]; simpl;
      destruct (N.eqb_spec (fst e) k) as [Hk|Hk]; try exact IH; subst k.
    + subst j. now rewrite N.eqb_refl.
    + now key_cases.
Qed.

Lemma rooms_lookup_set k j room rooms :
  rooms_lookup k (rooms_set j room rooms) =
  if N.eqb k j then Some room else rooms_lookup k rooms.
Proof.
  unfold rooms_lookup.
  induction rooms as [|e t IH]; simpl.
  - now key_cases.
  - destruct (N.ltb j (fst e)); [|destruct (N.eqb_spec j (fst e)) as [Hj|Hj]];
      simpl.
    + now key_cases.
    + now key_cases.
    + destruct (N.eqb_spec (fst e) k) as [Hk|Hk]; [|exact IH].
      now key_cases.
Qed.

Lemma rooms_lookup_delete k j rooms :
  rooms_lookup k (rooms_delete j rooms) =
  if N.eqb k j then None else rooms_lookup k rooms.
Proof.
  unfold rooms_lookup, rooms_delete.
  induction rooms as [|e t IH]; simpl.
  - now destruct (N.eqb k j).
  - destruct (N.eqb_spec (fst e) j) as [Hj|Hj]; simpl.
    + rewrite IH. now key_cases.
    + destruct (N.eqb_spec (fst e) k) as [Hk|Hk]; [|exact IH].
      now key_cases.
Qed.

Lemma codes_rooms_set_In k room rooms x :
  In x (codes (rooms_set k room rooms)) -> x = k \/ In x (codes rooms).
Proof.
  induction rooms as [|e t IH]; simpl.
  - intros [H|[]]; auto.
  - destruct (N.ltb k (fst e)); [|destruct (N.eqb_spec k (fst e)) as [Hk|Hk]];
      simpl; intros [H|H]; auto.
    destruct (IH H); auto.
Qed.

Lemma codes_rooms_delete_In k rooms x :
  In x (codes (rooms_delete k rooms)) -> In x (codes rooms).
Proof.
  induction rooms as [|e t IH]; simpl; [tauto|].
  destruct (N.eqb (fst e) k); simpl; intros H; [auto|].
  destruct H; auto.
Qed.

Lemma ascending_rooms_set k room rooms :
  ascending rooms -> ascending (rooms_set k room rooms).
Proof.
  unfold ascending.
  induction rooms as [|e t IH]; simpl; intros Hs.
  - constructor; constructor.
  - apply StronglySorted_inv in Hs as [Ht He].
    destruct (N.ltb_spec k (fst e)) as [Hlt|Hge];
      [|destruct (N.eqb_spec k (fst e)) as [Hk|Hk]]; simpl.
    + constructor.
      * now constructor.
      * constructor; [exact Hlt|].
        eapply Forall_impl; [|exact He]. intros a Ha. simpl in Ha. lia.
    + constructor; [exact Ht | now rewrite Hk].
    + constructor; [now apply IH|].
      apply Forall_forall. intros x Hx.
      apply codes_rooms_set_In in Hx as [->|Hx]; [lia|].
      now apply (proj1 (Forall_forall _ _) He).
Qed.

Lemma ascending_rooms_update k f rooms :
  ascending rooms -> ascending (rooms_update k f rooms).
Proof. unfold ascending. now rewrite codes_rooms_update. Qed.

Lemma ascending_rooms_delete k rooms :
  ascending rooms -> ascending (rooms_delete k rooms).
Proof.
  unfold ascending.
  induction rooms as [|e t IH]; simpl; intros Hs; [exact Hs|].
  apply StronglySorted_inv in Hs as [Ht He].
  destruct (N.eqb (fst e) k); simpl; [now apply IH|].
  constructor; [now apply IH|].
  apply Forall_forall. intros x Hx.
  apply codes_rooms_delete_In in Hx.
  now apply (proj1 (Forall_forall _ _) He).
Qed.

Lemma ascending_NoDup rooms : ascending rooms -> NoDup (codes rooms).
Proof.
  unfold ascending.
  induction rooms as [|e t IH]; simpl; intros Hs; [constructor|].
  apply StronglySorted_inv in Hs as [Ht He].
  constructor; [|now apply IH].
  intros Hin. apply (proj1 (Forall_forall _ _) He) in Hin. lia.
Qed.

(** Every handler keeps the table in enumeration order. *)
Lemma handle_ascending id i rooms :
  ascending rooms -> ascending (fst (handle id i rooms)).
Proof.
  intros Hs. destruct i; simpl.
  - now apply ascending_rooms_set.
  - unfold join_room.
    destruct (find _ rooms) as [[k room]|]; [|now destruct (inherited _)].
    destruct (Nat.leb _ _); [exact Hs|].
    destruct (includes _ _); [exact Hs|].
    destruct (keys (players room)); simpl;
      [now apply ascending_rooms_update|].
    destruct (players_get _ _); now apply ascending_rooms_update.
  - unfold make_move.
    destruct (find_player_room id rooms) as [[k room]|]; [|exact Hs].
    destruct (players_get _ _); [|exact Hs].
    destruct (Color_eqb _ _); [|exact Hs].
    destruct (move _ _);
      [now apply ascending_rooms_update | now destruct (throws _ _)].
  - unfold offer_draw.
    destruct (find_player_room id rooms) as [[k room]|]; [|exact Hs].
    now destruct (find_opponent _ _).
  - unfold draw_response.
    destruct (find_player_room id rooms) as [[k room]|]; [|exact Hs].
    destruct (find_opponent _ _); [|exact Hs].
    destruct accepted; [now apply ascending_rooms_update | exact Hs].
  - unfold resign_game.
    destruct (find_player_room id rooms) as [[k room]|]; [|exact Hs].
    destruct (find_opponent _ _); [now apply ascending_rooms_update | exact Hs].
  - unfold disconnect.
    destruct (find_player_room id rooms) as [[k room]|]; [|exact Hs].
    simpl. destruct (keys _).
    + now apply ascending_rooms_delete, ascending_rooms_update.
    + now apply ascending_rooms_update.
Qed.

Lemma reachable_ascending rooms : reachable rooms -> ascending rooms.
Proof.
  induction 1 as [|rooms id i _ IH _].
  - constructor.
  - now apply handle_ascending.
Qed.

Lemma find_code k room rooms :
  rooms_lookup k rooms = Some room ->
  find (fun e => String.eqb (roomKey (fst e)) (roomKey k)) rooms
  = Some (k, room).
Proof.
  unfold rooms_lookup.
  induction rooms as [|e t IH]; simpl; [discriminate|].
  rewrite roomKey_eqb.
  destruct (N.eqb_spec (fst e) k) as [Hk|Hk]; [|exact IH].
  intros [= <-]. subst k. now destruct e.
Qed.

Lemma reachable_run tr rooms :
  Forall (fun e => valid_intent (snd e)) tr ->
  reachable rooms -> reachable (run tr rooms).
Proof.
  revert rooms. induction tr as [|[id i] tr IH]; simpl; intros rooms Hv Hr.
  - exact Hr.
  - apply IH; [now inversion Hv|].
    apply reachable_step; [exact Hr | now inversion Hv].
Qed.

Lemma disciplined_reachable rooms : reachable_disciplined rooms -> reachable rooms.
Proof.
  induction 1 as [|rooms id i _ IH Hv _]; [constructor|].
  now apply reachable_step.
Qed.

Lemma Forall_rooms_set (P : N * Room Game -> Prop) k room rooms :
  P (k, room) -> Forall P rooms -> Forall P (rooms_set k room rooms).
Proof.
  intros Hp. induction 1 as [|e t He Ht IH]; simpl.
  - now repeat constructor.
  - destruct (N.ltb k (fst e)); [|destruct (N.eqb k (fst e))];
      repeat constructor; assumption.
Qed.

Lemma Forall_rooms_update (P : N * Room Game -> Prop) k f rooms :
  (forall r, In (k, r) rooms -> P (k, r) -> P (k, f r)) ->
  Forall P rooms -> Forall P (rooms_update k f rooms).
Proof.
  intros Hf Hall. unfold rooms_update.
  apply Forall_forall. intros x Hx.
  apply in_map_iff in Hx as [[j r] [<- Hin]]. simpl.
  pose proof (proj1 (Forall_forall _ _) Hall _ Hin) as Hp.
  destruct (N.eqb_spec j k) as [->|_]; [now apply Hf | exact Hp].
Qed.

Lemma Forall_rooms_delete (P : N * Room Game -> Prop) k rooms :
  Forall P rooms -> Forall P (rooms_delete k rooms).
Proof.
  intros Hall. apply Forall_forall. intros x Hx.
  apply filter_In in Hx as [Hx _].
  exact (proj1 (Forall_forall _ _) Hall _ Hx).
Qed.

Lemma rooms_delete_update k f rooms :
  rooms_delete k (rooms_update k f rooms) = rooms_delete k rooms.
Proof.
  unfold rooms_delete, rooms_update.
  induction rooms as [|e t IH]; simpl; [reflexivity|].
  destruct (N.eqb (fst e) k) eqn:E; simpl; rewrite E; simpl; now rewrite IH.
Qed.

(** A table in enumeration order has one room per code. *)
Lemma ascending_In_unique k r1 r2 rooms :
  ascending rooms -> In (k, r1) rooms -> In (k, r2) rooms -> r1 = r2.
Proof.
  intros Hs. apply ascending_NoDup in Hs. unfold codes in Hs.
  induction rooms as [|e t IH]; simpl; [intros []|].
  inversion Hs as [|x l Hx Hl]; subst.
  intros [H1|H1] [H2|H2].
  - congruence.
  - exfalso. apply Hx. subst e. now apply (in_map fst t (k, r2)).
  - exfalso. apply Hx. subst e. now apply (in_map fst t (k, r1)).
  - now apply IH.
Qed.

Lemma players_set_length id p ps :
  List.length ps <= List.length (players_set id p ps) <= S (List.length ps).
Proof.
  induction ps as [|e t IH]; simpl; [lia|].
  destruct (String.eqb (fst e) id); simpl; lia.
Qed.

Lemma players_delete_length id ps :
  List.length (players_delete id ps) <= List.length ps.
Proof. apply filter_length_le. Qed.

Lemma find_player_room_In id rooms k room :
  find_player_room id rooms = Some (k, room) -> In (k, room) rooms.
Proof. intros H. now apply find_some in H as [H _]. Qed.

(** Every handler keeps the codes within four digits and the rooms at one
    or two players; [disconnect] does so by deleting the room it empties. *)
Lemma handle_well_formed id i rooms :
  valid_intent i -> ascending rooms ->
  Forall well_formed_entry rooms ->
  Forall well_formed_entry (fst (handle id i rooms)).
Proof.
  intros Hv Hs Hall.
  assert (Hsame : forall k f,
             (forall r, players (f r) = players r) ->
             Forall well_formed_entry (rooms_update k f rooms)).
  { intros k f Hf. apply Forall_rooms_update; [|exact Hall].
    intros r _. unfold well_formed_entry; simpl. now rewrite Hf. }
  destruct i; cbn [handle valid_intent] in *.
  - unfold create_room; cbn [fst]. apply Forall_rooms_set; [|exact Hall].
    unfold well_formed_entry, draw_roomId; cbn [fst snd players List.length].
    lia.
  - unfold join_room.
    destruct (find _ rooms) as [[k room]|] eqn:Hfind;
      [|now destruct (inherited _)].
    destruct (Nat.leb_spec 2 (List.length (keys (players room)))) as [|Hlt];
      [exact Hall|].
    destruct (includes _ _); [exact Hall|].
    apply find_some in Hfind as [Hin _].
    assert (Hupd : Forall well_formed_entry
                     (rooms_update k
                        (fun r =>
                           set_gameState playing
                             (set_players
                                (players_set id
                                   {| color := black; name := player_name |}
                                   (players r)) r)) rooms)).
    { apply Forall_rooms_update; [|exact Hall].
      intros r Hr [Hk Hp]. rewrite (ascending_In_unique k r room rooms Hs Hr Hin).
      split; [exact Hk|]. simpl in *.
      unfold keys in Hlt. rewrite length_map in Hlt.
      pose proof (players_set_length id
                    {| color := black; name := player_name |} (players room)).
      rewrite (ascending_In_unique k r room rooms Hs Hr Hin) in Hp. lia. }
    destruct (keys (players room)); cbn [fst]; [exact Hupd|].
    destruct (players_get _ _); exact Hupd.
  - unfold make_move.
    destruct (find_player_room id rooms) as [[k room]|]; [|exact Hall].
    destruct (players_get _ _); [|exact Hall].
    destruct (Color_eqb _ _); [|exact Hall].
    destruct (move _ _); [|now destruct (throws _ _)].
    now apply Hsame.
  - unfold offer_draw.
    destruct (find_player_room id rooms) as [[k room]|]; [|exact Hall].
    now destruct (find_opponent _ _).
  - unfold draw_response.
    destruct (find_player_room id rooms) as [[k room]|]; [|exact Hall].
    destruct (find_opponent _ _); [|exact Hall].
    destruct accepted; [now apply Hsame | exact Hall].
  - unfold resign_game.
    destruct (find_player_room id rooms) as [[k room]|]; [|exact Hall].
    destruct (find_opponent _ _); [now apply Hsame | exact Hall].
  - unfold disconnect.
    destruct (find_player_room id rooms) as [[k room]|] eqn:Hfind;
      [|exact Hall].
    apply find_player_room_In in Hfind. cbn [fst players set_players].
    destruct (keys (players_delete id (players room))) eqn:Hkeys.
    + rewrite rooms_delete_update. now apply Forall_rooms_delete.
    + apply Forall_rooms_update; [|exact Hall].
      intros r Hr [Hk Hp].
      rewrite (ascending_In_unique k r room rooms Hs Hr Hfind) in *.
      split; [exact Hk|]. simpl in *.
      pose proof (players_delete_length id (players room)).
      assert (List.length (keys (players_delete id (players room))) <> 0)
        by (rewrite Hkeys; discriminate).
      unfold keys in *. rewrite length_map in *. lia.
Qed.

(** The tables the server can be in list rooms of four-digit codes with one
    or two players each. *)
Lemma reachable_well_formed rooms :
  reachable rooms -> Forall well_formed_entry rooms.
Proof.
  induction 1 as [|rooms id i Hr IH Hv]; [constructor|].
  apply handle_well_formed; [exact Hv | | exact IH].
  now apply reachable_ascending.
Qed.

End TableFacts.

(** ** Joining a room *)

Section JoinRoom.

Context {Game : Type} {engine : ChessEngine Game}.

Implicit Types (rooms : Rooms Game) (room : Room Game).

Lemma rooms_get_find room_id rooms room :
  rooms_get room_id rooms = Some room ->
  exists k, find (fun e => String.eqb (roomKey (fst e)) room_id) rooms
            = Some (k, room).
Proof.
  unfold rooms_get.
  destruct (find _ rooms) as [[k r]|]; [|discriminate].
  simpl. intros [= ->]. now exists k.
Qed.

Lemma join_room_when_full rooms id room_id player_name room :
  rooms_get room_id rooms = Some room ->
  2 <= List.length (keys (players room)) ->
  join_room id room_id player_name rooms
  = (rooms, [(socket_emit id, ev_error "Room is full")]).
Proof.
  intros Hget Hfull.
  destruct (rooms_get_find _ _ _ Hget) as [k Hfind].
  unfold join_room. rewrite Hfind.
  destruct (Nat.leb_spec 2 (List.length (keys (players room))));
    [reflexivity | lia].
Qed.

(** C8.  A [join_room] naming a room that already has two players is
    answered with "Room is full": the table is left exactly as it was, and
    the only event is the error, sent with [socket.emit] to the socket that
    asked to join. *)
Theorem join_full_room_rejected rooms id room_id player_name room :
  rooms_get room_id rooms = Some room ->
  2 <= List.length (keys (players room)) ->
  fst (join_room id room_id player_name rooms) = rooms /\
  snd (join_room id room_id player_name rooms)
  = [(socket_emit id, ev_error "Room is full")].
Proof.
  intros Hget Hfull.
  now rewrite (join_room_when_full rooms id room_id player_name room).
Qed.

Lemma includes_is_member id room :
  includes id (keys (players room)) = is_member id room.
Proof.
  unfold includes, is_member, players_get, keys.
  induction (players room) as [|e t IH]; simpl; [reflexivity|].
  rewrite (String.eqb_sym id (fst e)).
  destruct (String.eqb (fst e) id); [reflexivity | exact IH].
Qed.

(** C10.  In [join_room] the test for a full room comes before the test
    for a caller who is already a player: one of the two players of a full
    room who asks to join it is told "Room is full", and
    "You are already in this room" is only ever the answer for a room with
    exactly one player, the caller. *)
Theorem join_fullness_checked_before_membership rooms id room_id player_name :
  (forall room,
      rooms_get room_id rooms = Some room ->
      is_member id room = true ->
      List.length (keys (players room)) = 2 ->
      snd (join_room id room_id player_name rooms)
      = [(socket_emit id, ev_error "Room is full")]) /\
  (In (socket_emit id, ev_error "You are already in this room")
      (snd (join_room id room_id player_name rooms)) ->
   exists room,
     rooms_get room_id rooms = Some room /\
     is_member id room = true /\
     List.length (keys (players room)) = 1).
Proof.
  split.
  - intros room Hget _ Hlen.
    rewrite (join_room_when_full rooms id room_id player_name room Hget);
      [reflexivity | lia].
  - unfold join_room, rooms_get.
    destruct (find _ rooms) as [[k room]|]; cbn [fst snd In].
    + destruct (Nat.leb_spec 2 (List.length (keys (players room)))) as [Hl|Hl];
        cbn [fst snd In].
      * intros [H|[]]; discriminate.
      * destruct (includes id (keys (players room))) eqn:Hin; cbn [fst snd In].
        -- intros _. exists room. rewrite <- includes_is_member.
           repeat split; [exact Hin|].
           destruct (keys (players room)) as [|x [|y l]]; simpl in *;
             [discriminate | reflexivity | lia].
        -- destruct (keys (players room)); cbn [fst snd In]; [intros []|].
           destruct (players_get _ _); cbn [fst snd In]; [|intros []].
           intros [H|[H|[]]]; discriminate.
    + destruct (inherited room_id); cbn [snd In]; [intros []|].
      intros [H|[]]; discriminate.
Qed.

End JoinRoom.

Lemma join_full_room_rejected_witness :
  (rooms_get "1234" room_1234 = Some alice_bob_room /\ 2 <= 2) /\
  fst (join_room "C" "1234" "Carol" room_1234) = room_1234 /\
  snd (join_room "C" "1234" "Carol" room_1234)
  = [(socket_emit "C", ev_error "Room is full")].
Proof.
  split; [split; [reflexivity | apply le_n]|].
  apply (join_full_room_rejected room_1234 "C" "1234" "Carol" alice_bob_room);
    [reflexivity | apply le_n].
Defined.

Lemma join_fullness_checked_before_membership_witness :
  snd (join_room "B" "1234" "Bob" room_1234)
  = [(socket_emit "B", ev_error "Room is full")] /\
  exists room,
    rooms_get "1234" (run [("A", CreateRoom "Alice" 234)] []) = Some room /\
    is_member "A" room = true /\
    List.length (keys (players room)) = 1.
Proof.
  split.
  - eapply (proj1 (join_fullness_checked_before_membership
                     room_1234 "B" "1234" "Bob")); reflexivity.
  - apply (proj2 (join_fullness_checked_before_membership
                    (run [("A", CreateRoom "Alice" 234)] []) "A" "1234" "Al")).
    left. reflexivity.
Defined.

(** ** Moves *)

Section MakeMove.

Context {Game : Type}.

Implicit Types (engine : ChessEngine Game) (rooms : Rooms Game)
  (room : Room Game).

Lemma Color_eqb_eq (c d : Color) : Color_eqb c d = true <-> c = d.
Proof. destruct c, d; simpl; split; congruence. Qed.

Lemma make_move_not_on_turn engine rooms id m k room c :
  find_player_room id rooms = Some (k, room) ->
  assigned_color id room = Some c ->
  c <> side_to_move room ->
  make_move id m rooms = (rooms, [(socket_emit id, ev_error "Not your turn")]).
Proof.
  unfold assigned_color, side_to_move, make_move.
  intros -> Hc Hne.
  destruct (players_get id (players room)) as [player|]; [|discriminate].
  simpl in Hc. injection Hc as <-.
  destruct (Color_eqb _ _) eqn:E; [|reflexivity].
  now apply Color_eqb_eq in E.
Qed.

Lemma rooms_of_single_find id rooms k room :
  rooms_of id rooms = [(k, room)] -> find_player_room id rooms = Some (k, room).
Proof.
  unfold rooms_of, find_player_room, is_member.
  induction rooms as [|e t IH]; simpl; [discriminate|].
  destruct (players_get id (players (snd e))); [|exact IH].
  now intros [= ->].
Qed.

(** C3, as the server has it.  [make_move] looks at one room only: the
    first, in the order of the table, that has the caller among its
    players, which is the caller's room when it is a player of one room
    only.  If the colour the caller has in that room is not the one
    [game.turn()] gives for that room's game, the move is answered
    "Not your turn": the table, and so the game of every room, is left as
    it was; the only event is the error, sent with [socket.emit] to the
    mover; and [game.move] takes no part in the outcome, which is the same
    for every engine that reports the same turn. *)
Theorem make_move_out_of_turn_rejected engine rooms id m k room c :
  find_player_room id rooms = Some (k, room)
  \/ rooms_of id rooms = [(k, room)] ->
  assigned_color id room = Some c ->
  c <> side_to_move room ->
  make_move id m rooms = (rooms, [(socket_emit id, ev_error "Not your turn")])
  /\ forall engine' : ChessEngine Game,
      (forall g, @turn _ engine' g = @turn _ engine g) ->
      @make_move _ engine' id m rooms = @make_move _ engine id m rooms.
Proof.
  intros Hroom Hc Hne.
  assert (Hfind : find_player_room id rooms = Some (k, room)).
  { destruct Hroom as [H|H]; [exact H | now apply rooms_of_single_find]. }
  split.
  - now apply (make_move_not_on_turn engine rooms id m k room c).
  - intros engine' Hturn.
    rewrite (make_move_not_on_turn engine rooms id m k room c) by assumption.
    apply (make_move_not_on_turn engine' rooms id m k room c); try assumption.
    unfold side_to_move. now rewrite Hturn.
Qed.

(** An accepted move that was sent without a promotion piece is announced
    to the whole Socket.IO room with promotion ["q"], and the game becomes
    what [game.move] made of the move as it was sent. *)
Lemma make_move_promotion_default engine rooms id m k room player g' :
  find_player_room id rooms = Some (k, room) ->
  players_get id (players room) = Some player ->
  color player = side_to_move room ->
  promotion m = None ->
  move (game room) m = Some g' ->
  make_move id m rooms
  = (rooms_update k (set_game g') rooms,
     [(io_to (roomKey k),
       ev_chess_move (from m) (to m) "q" (name player) (color player))]).
Proof.
  unfold side_to_move, make_move, promotion_or_q.
  intros -> -> Hc -> ->.
  rewrite Hc.
  now destruct (turn (game room)).
Qed.

(** C9, where the server departs from it.  The queen is filled in for
    the [chess_move] event only: [game.move] is given the move as it was
    sent.  So when a move sent without a promotion piece is one the engine
    refuses as sent but makes once the queen is named, as [chess.js] does
    with a pawn's move to the last rank, the player on turn who sends it
    has nothing played and nothing broadcast: the table is unchanged and
    at most the error "Invalid move" goes back to the mover; the same move
    sent with promotion ["q"] is played and broadcast. *)
Theorem make_move_refuses_promotion_without_piece
    engine rooms id m k room player g_q :
  find_player_room id rooms = Some (k, room) ->
  players_get id (players room) = Some player ->
  color player = side_to_move room ->
  promotion m = None ->
  move (game room) m = None ->
  move (game room) (with_queen m) = Some g_q ->
  fst (make_move id m rooms) = rooms /\
  (forall target ev,
      In (target, ev) (snd (make_move id m rooms)) ->
      target = socket_emit id /\ ev = ev_error "Invalid move") /\
  make_move id (with_queen m) rooms
  = (rooms_update k (set_game g_q) rooms,
     [(io_to (roomKey k),
       ev_chess_move (from m) (to m) "q" (name player) (color player))]).
Proof.
  unfold side_to_move, make_move, promotion_or_q.
  intros -> -> Hc Hp -> ->.
  rewrite Hc.
  assert (Hon : Color_eqb
                  (match turn (game room) with w => white | b => black end)
                  (match turn (game room) with w => white | b => black end)
                = true) by now destruct (turn (game room)).
  rewrite Hon. cbn [with_queen from to promotion]. split; [|split].
  - now destruct (throws (game room) m).
  - destruct (throws (game room) m); cbn [snd In]; [intros ? ? []|].
    intros target ev [[= <- <-]|[]]. now split.
  - reflexivity.
Qed.

End MakeMove.

Lemma make_move_out_of_turn_rejected_witness :
  make_move "B" {| from := "e7"; to := "e5"; promotion := None |} room_1234
  = (room_1234, [(socket_emit "B", ev_error "Not your turn")]).
Proof.
  refine (proj1 (make_move_out_of_turn_rejected recording_engine room_1234 "B"
                   {| from := "e7"; to := "e5"; promotion := None |}
                   1234%N alice_bob_room black (or_intror eq_refl) eq_refl _)).
  discriminate.
Defined.

(** C3, refuted as stated.  Alice plays white in room 5000, where after
    her e2-e4 it is Black's move, and is also the only player of room 1000.
    Her next move, d2-d4, is out of turn in room 5000, but the handler
    finds room 1000 first, where White is to move: the move is played there
    and broadcast. *)
Lemma out_of_turn_move_played_in_other_room :
  ~ @out_of_turn_move_refused (list Move) recording_engine.
Proof.
  intros H.
  assert (Hr : reachable (run alice_in_two_rooms
                            (@nil (N * Room (list Move))))).
  { apply reachable_run; [|constructor]. repeat constructor. }
  specialize (H (run alice_in_two_rooms []) "A" d2d4 5000%N
                {| players := [("A", {| color := white; name := "Alice" |});
                               ("B", {| color := black; name := "Bob" |})];
                   game := [e2e4];
                   gameState := playing |}
                white Hr eq_refl eq_refl).
  assert (Hne : white <> black) by discriminate.
  specialize (H Hne). vm_compute in H. discriminate.
Qed.

Lemma make_move_promotion_default_witness :
  make_move "A" e7e8 room_1234
  = (rooms_update 1234%N (set_game [e7e8]) room_1234,
     [(io_to "1234", ev_chess_move "e7" "e8" "q" "Alice" white)]).
Proof.
  exact (make_move_promotion_default recording_engine room_1234 "A" e7e8
           1234%N alice_bob_room {| color := white; name := "Alice" |} [e7e8]
           eq_refl eq_refl eq_refl eq_refl eq_refl).
Defined.

Lemma make_move_refuses_promotion_without_piece_witness :
  fst (@make_move _ promotion_engine "A" h7g8
         (@run _ promotion_engine promotion_game []))
  = @run _ promotion_engine promotion_game [] /\
  snd (@make_move _ promotion_engine "A" h7g8
         (@run _ promotion_engine promotion_game []))
  = [] /\
  snd (@make_move _ promotion_engine "A" (with_queen h7g8)
         (@run _ promotion_engine promotion_game []))
  = [(io_to "1234", ev_chess_move "h7" "g8" "q" "Alice" white)].
Proof.
  pose proof (make_move_refuses_promotion_without_piece promotion_engine
                (@run _ promotion_engine promotion_game []) "A" h7g8 1234%N
                {| players := players alice_bob_room;
                   game := [plain "h2" "h4"; plain "g7" "g5";
                            plain "h4" "g5"; plain "a7" "a6";
                            plain "g5" "g6"; plain "a6" "a5";
                            plain "g6" "h7"; plain "a5" "a4"];
                   gameState := playing |}
                {| color := white; name := "Alice" |}
                [plain "h2" "h4"; plain "g7" "g5";
                 plain "h4" "g5"; plain "a7" "a6";
                 plain "g5" "g6"; plain "a6" "a5";
                 plain "g6" "h7"; plain "a5" "a4"; with_queen h7g8]
                eq_refl eq_refl eq_refl eq_refl eq_refl eq_refl)
    as [Hfst [_ Hqueen]].
  split; [exact Hfst|]. split; [reflexivity|].
  now rewrite Hqueen.
Defined.

(** ** Draw offers and responses *)

Section Draw.

Context {Game : Type} {engine : ChessEngine Game}.

Implicit Types (rooms : Rooms Game) (room : Room Game).


End Draw.



(** ** Disconnection *)

Section Disconnect.

Context {Game : Type} {engine : ChessEngine Game}.

Implicit Types (rooms : Rooms Game) (room : Room Game).

Lemma players_get_delete_same id ps :
  players_get id (players_delete id ps) = None.
Proof.
  unfold players_get, players_delete.
  induction ps as [|e t IH]; simpl; [reflexivity|].
  destruct (String.eqb (fst e) id) eqn:E; simpl; [exact IH|].
  now rewrite E.
Qed.

(** Whoever disconnects, the payload names nobody: it is read from
    [players] once the entry is gone. *)
Lemma disconnect_payload_names_nobody rooms id t ev :
  In (t, ev) (snd (disconnect id rooms)) ->
  ev = ev_player_disconnected "Unknown" "unknown" "finished".
Proof.
  unfold disconnect.
  destruct (find_player_room id rooms) as [[k room]|]; cbn [snd In];
    [|intros []].
  cbn [players set_players].
  rewrite players_get_delete_same. simpl.
  intros [[= _ <-]|[]]. reflexivity.
Qed.

(** [disconnect] never changes the [gameState] of a room it leaves in the
    table. *)
Lemma disconnect_keeps_gameState rooms id k room' :
  rooms_lookup k (fst (disconnect id rooms)) = Some room' ->
  exists room,
    rooms_lookup k rooms = Some room /\ gameState room' = gameState room.
Proof.
  unfold disconnect.
  destruct (find_player_room id rooms) as [[j room0]|]; cbn [fst].
  - assert (Hupd : forall r,
               rooms_lookup k
                 (rooms_update j
                    (fun r0 => set_players (players_delete id (players r0)) r0)
                    rooms)
               = Some r ->
               exists room,
                 rooms_lookup k rooms = Some room /\
                 gameState r = gameState room).
    { intros r. rewrite rooms_lookup_update.
      destruct (N.eqb k j).
      - destruct (rooms_lookup k rooms) as [room|]; [|discriminate].
        simpl. intros [= <-]. now exists room.
      - intros H. now exists r. }
    destruct (keys _).
    + rewrite rooms_lookup_delete. destruct (N.eqb k j); [discriminate|].
      apply Hupd.
    + apply Hupd.
  - intros H. now exists room'.
Qed.

End Disconnect.

(** C1, where the server departs from it.  Bob, the black player of room
    1234, disconnects: the [player_disconnected] event for Alice carries
    the name ["Unknown"] and the colour ["unknown"], not ["Bob"] and
    ["black"], because the handler deletes Bob's entry before it reads
    them. *)
Theorem disconnect_notification_loses_identity :
  players_get "B" (players alice_bob_room)
  = Some {| color := black; name := "Bob" |} /\
  snd (disconnect "B" room_1234)
  = [(socket_to "1234" "B",
      ev_player_disconnected "Unknown" "unknown" "finished")].
Proof. split; reflexivity. Qed.

(** C6, where the server departs from it.  Bob disconnects from the
    room he was playing in with Alice: Alice is told [game_state:
    'finished'], but the room stays in the table with [gameState] still
    [playing]. *)
Theorem disconnect_leaves_room_playing :
  rooms_lookup 1234 room_1234 = Some alice_bob_room /\
  rooms_lookup 1234 (fst (disconnect "B" room_1234))
  = Some {| players := [("A", {| color := white; name := "Alice" |})];
            game := [];
            gameState := playing |} /\
  snd (disconnect "B" room_1234)
  = [(socket_to "1234" "B",
      ev_player_disconnected "Unknown" "unknown" "finished")].
Proof. repeat split; reflexivity. Qed.

(** ** Room codes *)

Section CreateRoom.

Context {Game : Type} {engine : ChessEngine Game}.

Implicit Types (rooms : Rooms Game) (room : Room Game).

Lemma NoDup_roomKey (l : list N) : NoDup l -> NoDup (map roomKey l).
Proof.
  induction 1 as [|x l Hx _ IH]; simpl; constructor; [|exact IH].
  intros Hin. apply in_map_iff in Hin as [y [Hy Hin]].
  apply roomKey_inj in Hy. now subst y.
Qed.

(** C2, as the server has it.  The codes of the live rooms are always
    pairwise distinct, the table having one entry per code; but
    [create_room] draws its code once: the new room is stored under the
    drawn code whether or not a live room has it, taking that room's place
    if one does, and the rooms of all other codes are left as they were. *)
Theorem create_room_overwrites_drawn_code rooms id playerName rnd :
  reachable rooms ->
  NoDup (map roomKey (codes (fst (create_room id playerName rnd rooms)))) /\
  rooms_lookup (draw_roomId rnd) (fst (create_room id playerName rnd rooms))
  = Some {| players := [(id, {| color := white; name := playerName |})];
            game := new_Chess;
            gameState := waiting |} /\
  forall k,
    k <> draw_roomId rnd ->
    rooms_lookup k (fst (create_room id playerName rnd rooms))
    = rooms_lookup k rooms.
Proof.
  intros Hr. unfold create_room; cbn [fst]. split; [|split].
  - apply NoDup_roomKey, ascending_NoDup, ascending_rooms_set.
    now apply reachable_ascending.
  - rewrite rooms_lookup_set. now rewrite N.eqb_refl.
  - intros k Hk. rewrite rooms_lookup_set.
    destruct (N.eqb_spec k (draw_roomId rnd)); [contradiction | reflexivity].
Qed.

End CreateRoom.

Lemma create_room_overwrites_drawn_code_witness :
  rooms_lookup 1234
    (fst (create_room "C" "Carol" 234 room_1234))
  = Some {| players := [("C", {| color := white; name := "Carol" |})];
            game := [];
            gameState := waiting |}.
Proof.
  refine (proj1 (proj2 (create_room_overwrites_drawn_code
                          room_1234 "C" "Carol" 234 _))).
  apply (reachable_run alice_and_bob []).
  - repeat constructor.
  - constructor.
Defined.

(** C2, refuted as stated.  Alice's room has code 1234; Bob creates a
    room and the draw is 1234 again: Alice's room is no longer in the
    table, Bob's has taken its place. *)
Lemma create_room_collision_replaces_room :
  ~ @create_room_keeps_live_rooms (list Move) recording_engine.
Proof.
  intros H.
  specialize (H (run [("A", CreateRoom "Alice" 234)] []) "B" "Bob" 234%N
                1234%N
                {| players := [("A", {| color := white; name := "Alice" |})];
                   game := [];
                   gameState := waiting |}).
  assert (Hr : reachable (run [("A", CreateRoom "Alice" 234)]
                            (@nil (N * Room (list Move))))).
  { apply reachable_run; [|constructor].
    repeat constructor. }
  specialize (H Hr eq_refl eq_refl).
  vm_compute in H. discriminate.
Qed.

(** ** The phase of a room *)

Section Phase.

Context {Game : Type} {engine : ChessEngine Game}.

Implicit Types (rooms : Rooms Game) (room : Room Game).

Lemma phase_rank_finished (s : GameState) : phase_rank s <= phase_rank finished.
Proof. destruct s; simpl; lia. Qed.

(** What an in-place mutation [f] of room [j] does to the phase of room
    [k], when [f] does not lower the phase. *)
Lemma rooms_update_phase rooms j f k room room' :
  (forall r, phase_rank (gameState r) <= phase_rank (gameState (f r))) ->
  rooms_lookup k rooms = Some room ->
  rooms_lookup k (rooms_update j f rooms) = Some room' ->
  phase_rank (gameState room) <= phase_rank (gameState room').
Proof.
  intros Hf Hk. rewrite rooms_lookup_update, Hk.
  destruct (N.eqb k j); simpl; intros [= <-]; [apply Hf | apply le_n].
Qed.

(** The table [join_room] leaves when it names a live room: the room with
    the caller added when it is admitted, the table as it was when not. *)
Lemma join_room_table rooms id k room player_name :
  rooms_lookup k rooms = Some room ->
  fst (join_room id (roomKey k) player_name rooms)
  = if Nat.ltb (List.length (keys (players room))) 2
       && negb (is_member id room)
    then rooms_update k
           (fun r =>
              set_gameState playing
                (set_players
                   (players_set id {| color := black; name := player_name |}
                      (players r)) r)) rooms
    else rooms.
Proof.
  intros Hk. unfold join_room. rewrite (find_code k room rooms Hk).
  rewrite includes_is_member.
  destruct (Nat.leb_spec 2 (List.length (keys (players room))));
    destruct (Nat.ltb_spec (List.length (keys (players room))) 2);
    try lia; cbn [andb]; [reflexivity|].
  destruct (is_member id room); cbn [negb fst]; [reflexivity|].
  destruct (keys (players room)); cbn [fst]; [reflexivity|].
  now destruct (players_get _ _).
Qed.

(** C5, as the server has it.  The phase of a room moves backward in
    two ways only.  A [join_room] that names the room and is admitted (the
    room has fewer than two players and the caller is not one of them)
    adds the caller as black and sets the phase to [playing] whatever it
    was, [finished] included; a [create_room] whose draw is the room's
    code puts a new [waiting] room in its place.  A [join_room] that is
    refused, and every other message, leaves the phase where it was or
    moves it forward. *)
Theorem phase_moves_back_only_on_join_or_create rooms id k room :
  rooms_lookup k rooms = Some room ->
  (forall player_name,
      List.length (keys (players room)) < 2 ->
      is_member id room = false ->
      rooms_lookup k (fst (join_room id (roomKey k) player_name rooms))
      = Some {| players :=
                  players_set id {| color := black; name := player_name |}
                    (players room);
                game := game room;
                gameState := playing |}) /\
  (forall i room',
      rooms_lookup k (fst (handle id i rooms)) = Some room' ->
      phase_rank (gameState room) <= phase_rank (gameState room') \/
      (exists player_name,
          i = JoinRoom (roomKey k) player_name /\
          List.length (keys (players room)) < 2 /\
          is_member id room = false /\
          room' = {| players :=
                       players_set id
                         {| color := black; name := player_name |}
                         (players room);
                     game := game room;
                     gameState := playing |}) \/
      (exists playerName rnd,
          i = CreateRoom playerName rnd /\
          draw_roomId rnd = k /\
          room' = {| players :=
                       [(id, {| color := white; name := playerName |})];
                     game := new_Chess;
                     gameState := waiting |})).
Proof.
  intros Hk. split.
  - intros player_name Hlen Hmem.
    rewrite (join_room_table rooms id k room player_name Hk), Hmem.
    destruct (Nat.ltb_spec (List.length (keys (players room))) 2); [|lia].
    cbn [andb negb].
    now rewrite rooms_lookup_update, N.eqb_refl, Hk.
  - intros i room'.
    assert (Hsame : rooms_lookup k rooms = Some room' ->
                    phase_rank (gameState room)
                    <= phase_rank (gameState room')).
    { rewrite Hk. intros [= <-]. apply le_n. }
    destruct i; cbn [handle].
    + unfold create_room; cbn [fst]. rewrite rooms_lookup_set.
      destruct (N.eqb_spec k (draw_roomId rnd)) as [->|_];
        [|intros H; left; now apply Hsame].
      intros [= <-]. right; right. now exists playerName, rnd.
    + destruct (String.eqb_spec room_id (roomKey k)) as [->|Hother].
      * rewrite (join_room_table rooms id k room player_name Hk).
        destruct (Nat.ltb_spec (List.length (keys (players room))) 2)
          as [Hlen|_]; cbn [andb]; [|intros H; left; now apply Hsame].
        destruct (is_member id room) eqn:Hmem; cbn [negb];
          [intros H; left; now apply Hsame|].
        rewrite rooms_lookup_update, N.eqb_refl, Hk. cbn [option_map].
        intros [= <-]. right; left. now exists player_name.
      * unfold join_room.
        destruct (find _ rooms) as [[j room0]|] eqn:Hfind;
          [|destruct (inherited _); intros H; left; now apply Hsame].
        destruct (Nat.leb _ _); [intros H; left; now apply Hsame|].
        destruct (includes _ _); [intros H; left; now apply Hsame|].
        apply find_some in Hfind as [_ Hj]. cbn [fst] in Hj.
        apply String.eqb_eq in Hj. subst room_id.
        assert (Hjk : j <> k) by (intros ->; now apply Hother).
        assert (Hupd : forall f, rooms_lookup k (rooms_update j f rooms)
                                 = rooms_lookup k rooms).
        { intros f. rewrite rooms_lookup_update.
          destruct (N.eqb_spec k j); [congruence | reflexivity]. }
        destruct (keys (players room0)); cbn [fst];
          [rewrite Hupd; intros H; left; now apply Hsame|].
        destruct (players_get _ _); cbn [fst]; rewrite Hupd;
          intros H; left; now apply Hsame.
    + unfold make_move.
      destruct (find_player_room id rooms) as [[j room0]|];
        [|intros H; left; now apply Hsame].
      destruct (players_get _ _); [|intros H; left; now apply Hsame].
      destruct (Color_eqb _ _); [|intros H; left; now apply Hsame].
      destruct (move _ _);
        [|destruct (throws _ _); intros H; left; now apply Hsame].
      cbn [fst]. intros H. left. revert H.
      apply rooms_update_phase; [|exact Hk].
      intros r. apply le_n.
    + unfold offer_draw.
      destruct (find_player_room id rooms) as [[j room0]|];
        [|intros H; left; now apply Hsame].
      destruct (find_opponent _ _); intros H; left; now apply Hsame.
    + unfold draw_response.
      destruct (find_player_room id rooms) as [[j room0]|];
        [|intros H; left; now apply Hsame].
      destruct (find_opponent _ _); [|intros H; left; now apply Hsame].
      destruct accepted; [|intros H; left; now apply Hsame].
      cbn [fst]. intros H. left. revert H.
      apply rooms_update_phase; [|exact Hk].
      intros r. apply phase_rank_finished.
    + unfold resign_game.
      destruct (find_player_room id rooms) as [[j room0]|];
        [|intros H; left; now apply Hsame].
      destruct (find_opponent _ _); [|intros H; left; now apply Hsame].
      cbn [fst]. intros H. left. revert H.
      apply rooms_update_phase; [|exact Hk].
      intros r. apply phase_rank_finished.
    + intros Hd. left.
      apply disconnect_keeps_gameState in Hd as [r [Hr ->]].
      rewrite Hk in Hr. injection Hr as <-. apply le_n.
Qed.

End Phase.

Lemma phase_moves_back_only_on_join_or_create_witness :
  rooms_lookup 1234
    (fst (join_room "C" (roomKey 1234) "Carol"
            (run (alice_and_bob ++ [("A", Resign); ("B", Disconnect)]) [])))
  = Some {| players :=
              players_set "C" {| color := black; name := "Carol" |}
                [("A", {| color := white; name := "Alice" |})];
            game := [];
            gameState := playing |}.
Proof.
  refine (proj1 (phase_moves_back_only_on_join_or_create
                   (run (alice_and_bob ++ [("A", Resign); ("B", Disconnect)])
                      [])
                   "C" 1234%N
                   {| players := [("A", {| color := white; name := "Alice" |})];
                      game := [];
                      gameState := finished |}
                   eq_refl)
            "Carol" _ eq_refl).
  apply le_n.
Defined.

(** C5, refuted as stated.  Alice resigns her game against Bob, which
    finishes the room; Bob disconnects; Carol then joins the room, and its
    phase goes from [finished] back to [playing]. *)
Lemma join_reopens_finished_room :
  ~ @phase_never_moves_back (list Move) recording_engine.
Proof.
  intros H.
  pose (tr := (alice_and_bob ++ [("A", Resign); ("B", Disconnect)])%list).
  assert (Hr : reachable (run tr (@nil (N * Room (list Move))))).
  { apply reachable_run; [|constructor]. repeat constructor. }
  specialize (H (run tr []) "C" (JoinRoom "1234" "Carol") 1234%N
                {| players := [("A", {| color := white; name := "Alice" |})];
                   game := [];
                   gameState := finished |}
                {| players := [("A", {| color := white; name := "Alice" |});
                               ("C", {| color := black; name := "Carol" |})];
                   game := [];
                   gameState := playing |}
                Hr I eq_refl eq_refl).
  simpl in H. lia.
Qed.

(** ** Membership *)

Section Membership.

Context {Game : Type} {engine : ChessEngine Game}.

Implicit Types (rooms : Rooms Game) (room : Room Game).

Lemma players_get_set id' id p ps :
  players_get id' (players_set id p ps)
  = if String.eqb id id' then Some p else players_get id' ps.
Proof.
  unfold players_get.
  induction ps as [|e t IH]; simpl.
  - now destruct (String.eqb id id').
  - destruct (String.eqb_spec (fst e) id) as [He|He]; simpl.
    + subst id. now destruct (String.eqb (fst e) id').
    + destruct (String.eqb_spec (fst e) id') as [He'|He']; [|exact IH].
      subst id'. destruct (String.eqb_spec id (fst e)); congruence.
Qed.

Lemma players_get_delete id' id ps :
  players_get id' (players_delete id ps)
  = if String.eqb id id' then None else players_get id' ps.
Proof.
  unfold players_get, players_delete.
  induction ps as [|e t IH]; simpl.
  - now destruct (String.eqb id id').
  - destruct (String.eqb_spec (fst e) id) as [He|He]; simpl.
    + rewrite IH. subst id. now destruct (String.eqb (fst e) id').
    + destruct (String.eqb_spec (fst e) id') as [He'|He']; [|exact IH].
      subst id'. destruct (String.eqb_spec id (fst e)); congruence.
Qed.

Lemma filter_map_le {A : Type} (P : A -> bool) (g : A -> A) (l : list A) :
  (forall e, P (g e) = true -> P e = true) ->
  List.length (filter P (map g l)) <= List.length (filter P l).
Proof.
  intros Hg. induction l as [|e t IH]; simpl; [apply le_n|].
  destruct (P (g e)) eqn:E.
  - rewrite (Hg e E). simpl. lia.
  - destruct (P e); simpl; lia.
Qed.

Lemma filter_filter_le {A : Type} (P Q : A -> bool) (l : list A) :
  List.length (filter P (filter Q l)) <= List.length (filter P l).
Proof.
  induction l as [|e t IH]; simpl; [apply le_n|].
  destruct (Q e); simpl; destruct (P e); simpl; lia.
Qed.

(** A mutation of a room that adds no player to it adds no player to any
    room of the table. *)
Lemma rooms_of_update_le id k f rooms :
  (forall r, is_member id (f r) = true -> is_member id r = true) ->
  List.length (rooms_of id (rooms_update k f rooms))
  <= List.length (rooms_of id rooms).
Proof.
  intros Hf. unfold rooms_of, rooms_update. apply filter_map_le.
  intros e. destruct (N.eqb (fst e) k); [apply Hf | trivial].
Qed.

Lemma rooms_of_set_le id k room rooms :
  List.length (rooms_of id (rooms_set k room rooms))
  <= (if is_member id room then 1 else 0) + List.length (rooms_of id rooms).
Proof.
  unfold rooms_of.
  induction rooms as [|e t IH]; simpl.
  - destruct (is_member id room); simpl; lia.
  - destruct (N.ltb k (fst e)); [|destruct (N.eqb k (fst e))]; simpl.
    + destruct (is_member id room), (is_member id (snd e)); simpl; lia.
    + destruct (is_member id room), (is_member id (snd e)); simpl; lia.
    + destruct (is_member id (snd e)); simpl; lia.
Qed.

(** Mutating the one room of code [k] makes the socket a player of at most
    one room, if it was a player of none. *)
Lemma rooms_of_update_fresh id k f rooms :
  NoDup (codes rooms) ->
  rooms_of id rooms = [] ->
  List.length (rooms_of id (rooms_update k f rooms)) <= 1.
Proof.
  unfold rooms_of, rooms_update.
  induction rooms as [|e t IH]; simpl; intros Hnd Hnone; [lia|].
  inversion Hnd as [|x l Hx Hl]; subst.
  destruct (is_member id (snd e)) eqn:He; [discriminate|].
  destruct (N.eqb_spec (fst e) k) as [Hk|Hk].
  - assert (Ht : map (fun e0 => if N.eqb (fst e0) k
                                 then (fst e0, f (snd e0)) else e0) t = t).
    { rewrite <- (map_id t) at 2. apply map_ext_in.
      intros e0 Hin. destruct (N.eqb_spec (fst e0) k) as [Hk0|]; [|reflexivity].
      exfalso. apply Hx. rewrite Hk, <- Hk0. now apply in_map. }
    rewrite Ht, Hnone. cbn [snd].
    destruct (is_member id (f (snd e))); simpl; lia.
  - rewrite He. now apply IH.
Qed.

Lemma is_member_creator id' id p (g : Game) s :
  is_member id' {| players := [(id, p)]; game := g; gameState := s |}
  = String.eqb id id'.
Proof.
  unfold is_member, players_get; simpl. now destruct (String.eqb id id').
Qed.

(** One message keeps a socket in at most one room, provided the caller of
    [create_room] or [join_room] is in none. *)
Lemma handle_one_room rooms id i id' :
  ascending rooms ->
  (enters_room i = true -> rooms_of id rooms = []) ->
  List.length (rooms_of id' rooms) <= 1 ->
  List.length (rooms_of id' (fst (handle id i rooms))) <= 1.
Proof.
  intros Hs Hfresh Hone.
  assert (Hupd : forall k f,
             (forall r, is_member id' (f r) = true -> is_member id' r = true) ->
             List.length (rooms_of id' (rooms_update k f rooms)) <= 1).
  { intros k f Hf. pose proof (rooms_of_update_le id' k f rooms Hf). lia. }
  destruct i; simpl.
  - unfold create_room; cbn [fst].
    match goal with
    | |- context [rooms_set ?k ?r rooms] =>
        pose proof (rooms_of_set_le id' k r rooms) as Hle
    end.
    rewrite is_member_creator in Hle.
    destruct (String.eqb_spec id id') as [<-|Hne].
    + rewrite (Hfresh eq_refl) in Hle. simpl in Hle. lia.
    + lia.
  - unfold join_room.
    destruct (find _ rooms) as [[k room]|]; [|now destruct (inherited _)].
    destruct (Nat.leb _ _); [exact Hone|].
    destruct (includes _ _); [exact Hone|].
    assert (Hjoin : forall f,
               (forall r, is_member id' (f r)
                          = match players_get id'
                                    (players_set id
                                       {| color := black; name := player_name |}
                                       (players r)) with
                            | Some _ => true
                            | None => false
                            end) ->
               List.length (rooms_of id' (rooms_update k f rooms)) <= 1).
    { intros f Hf. destruct (String.eqb_spec id id') as [<-|Hne].
      - apply rooms_of_update_fresh; [|now apply Hfresh].
        now apply ascending_NoDup.
      - apply Hupd. intros r. rewrite Hf, players_get_set.
        destruct (String.eqb_spec id id'); [contradiction | trivial]. }
    destruct (keys (players room)); cbn [fst].
    + apply Hjoin. reflexivity.
    + destruct (players_get _ _); cbn [fst]; apply Hjoin; reflexivity.
  - unfold make_move.
    destruct (find_player_room id rooms) as [[k room]|]; [|exact Hone].
    destruct (players_get _ _); [|exact Hone].
    destruct (Color_eqb _ _); [|exact Hone].
    destruct (move _ _); [|now destruct (throws _ _)].
    cbn [fst]. apply Hupd. trivial.
  - unfold offer_draw.
    destruct (find_player_room id rooms) as [[k room]|]; [|exact Hone].
    destruct (find_opponent _ _); exact Hone.
  - unfold draw_response.
    destruct (find_player_room id rooms) as [[k room]|]; [|exact Hone].
    destruct (find_opponent _ _); [|exact Hone].
    destruct accepted; [|exact Hone].
    cbn [fst]. apply Hupd. trivial.
  - unfold resign_game.
    destruct (find_player_room id rooms) as [[k room]|]; [|exact Hone].
    destruct (find_opponent _ _); [|exact Hone].
    cbn [fst]. apply Hupd. trivial.
  - unfold disconnect.
    destruct (find_player_room id rooms) as [[k room]|]; [|exact Hone].
    cbn [fst].
    assert (Hdel : List.length
                     (rooms_of id'
                        (rooms_update k
                           (fun r =>
                              set_players (players_delete id (players r)) r)
                           rooms)) <= 1).
    { apply Hupd. intros r. unfold is_member; simpl.
      rewrite players_get_delete.
      now destruct (String.eqb id id'). }
    destruct (keys _); [|exact Hdel].
    unfold rooms_of, rooms_delete in *.
    etransitivity; [apply filter_filter_le | exact Hdel].
Qed.

(** C7, as the server has it.  Neither [create_room] nor [join_room]
    looks at the rooms the caller is already in.  As long as no client
    sends either message while it is a player of a live room, every socket
    is a player of at most one live room. *)
Theorem one_room_per_disciplined_connection rooms id :
  reachable_disciplined rooms ->
  List.length (rooms_of id rooms) <= 1.
Proof.
  induction 1 as [|rooms id0 i Hr IH Hv Hfresh]; [simpl; lia|].
  apply handle_one_room; [|exact Hfresh | exact IH].
  now apply reachable_ascending, disciplined_reachable.
Qed.

End Membership.

Lemma one_room_per_disciplined_connection_witness :
  List.length (rooms_of "A" room_1234) <= 1.
Proof.
  apply (one_room_per_disciplined_connection room_1234 "A").
  apply (disciplined_step
           (run [("A", CreateRoom "Alice" 234)] []) "B" (JoinRoom "1234" "Bob")).
  - apply (disciplined_step [] "A" (CreateRoom "Alice" 234)).
    + apply disciplined_init.
    + reflexivity.
    + reflexivity.
  - exact I.
  - reflexivity.
Defined.

(** C7, refuted as stated.  Alice creates a room, then a second one with
    another code: she is a player of both. *)
Lemma creator_of_two_rooms :
  ~ @one_room_per_connection (list Move) recording_engine.
Proof.
  intros H.
  pose (tr := [("A", CreateRoom "Alice" 234); ("A", CreateRoom "Alice" 235)]).
  assert (Hr : reachable (run tr (@nil (N * Room (list Move))))).
  { apply reachable_run; [|constructor]. repeat constructor. }
  specialize (H (run tr []) "A" Hr).
  vm_compute in H. lia.
Qed.

(** ** Further properties of the room table *)

Section RoomInvariants.

Context {Game : Type} {engine : ChessEngine Game}.

Implicit Types (rooms : Rooms Game) (room : Room Game).

Lemma rooms_lookup_In k room rooms :
  rooms_lookup k rooms = Some room -> In (k, room) rooms.
Proof.
  unfold rooms_lookup.
  destruct (find _ rooms) as [[j r]|] eqn:Hfind; [|discriminate].
  simpl. intros [= <-].
  apply find_some in Hfind as [Hin Hk]. simpl in Hk.
  apply N.eqb_eq in Hk. now subst j.
Qed.

Lemma In_rooms_lookup k room rooms :
  ascending rooms -> In (k, room) rooms -> rooms_lookup k rooms = Some room.
Proof.
  intros Hs Hin.
  destruct (rooms_lookup k rooms) as [r|] eqn:Hl.
  - apply rooms_lookup_In in Hl.
    now rewrite (ascending_In_unique k r room rooms Hs Hl Hin).
  - unfold rooms_lookup in Hl.
    destruct (find _ rooms) eqn:Hfind; [discriminate|].
    pose proof (find_none _ _ Hfind _ Hin) as Hk. simpl in Hk.
    now rewrite N.eqb_refl in Hk.
Qed.

Lemma find_player_room_lookup id rooms k room :
  ascending rooms ->
  find_player_room id rooms = Some (k, room) ->
  rooms_lookup k rooms = Some room.
Proof.
  intros Hs Hfind. apply In_rooms_lookup; [exact Hs|].
  now apply find_player_room_In in Hfind.
Qed.

Lemma rooms_get_In room_id room rooms :
  rooms_get room_id rooms = Some room ->
  exists k, roomKey k = room_id /\ In (k, room) rooms.
Proof.
  unfold rooms_get.
  destruct (find _ rooms) as [[j r]|] eqn:Hfind; [|discriminate].
  simpl. intros [= <-].
  apply find_some in Hfind as [Hin Hk]. simpl in Hk.
  apply String.eqb_eq in Hk. now exists j.
Qed.

Lemma four_digits_roomKey k :
  (1000 <= k <= 9999)%N -> four_digits (roomKey k) = true.
Proof.
  intros Hk.
  assert (H : forallb (fun n => four_digits (roomKey (1000 + N.of_nat n)))
                (seq 0 (90 * 100)) = true) by (vm_compute; reflexivity).
  rewrite forallb_forall in H.
  specialize (H (N.to_nat (k - 1000))).
  replace (1000 + N.of_nat (N.to_nat (k - 1000)))%N with k in H by lia.
  apply H, in_seq. lia.
Qed.

(** X1.  In every table the server can be in, a live room has one or
    two players and a code between 1000 and 9999. *)
Theorem live_room_has_one_or_two_players rooms k room :
  reachable rooms ->
  rooms_lookup k rooms = Some room ->
  (1000 <= k <= 9999)%N /\
  1 <= List.length (keys (players room)) <= 2.
Proof.
  intros Hr Hl. apply rooms_lookup_In in Hl.
  pose proof (proj1 (Forall_forall _ _) (reachable_well_formed rooms Hr)
                _ Hl) as [Hk Hp].
  simpl in Hk, Hp. unfold keys. rewrite length_map. now split.
Qed.

(** X2.  Room codes are strings of exactly four decimal digits: the
    code announced by [room_created], and every [room_id] under which
    [join_room] can find a live room. *)
Theorem room_codes_have_four_digits rooms :
  (forall id playerName rnd code color status,
      (rnd < 9000)%N ->
      In (socket_emit id, ev_room_created code color status)
         (snd (create_room id playerName rnd rooms)) ->
      four_digits code = true) /\
  (forall room_id room,
      reachable rooms ->
      rooms_get room_id rooms = Some room ->
      four_digits room_id = true).
Proof.
  split.
  - intros id playerName rnd code color status Hrnd.
    unfold create_room; cbn [snd In].
    intros [[= <- _ _]|[]].
    apply four_digits_roomKey. unfold draw_roomId. lia.
  - intros room_id room Hr Hget.
    apply rooms_get_In in Hget as [k [<- Hin]].
    apply four_digits_roomKey.
    exact (proj1 (proj1 (Forall_forall _ _) (reachable_well_formed rooms Hr)
                    _ Hin)).
Qed.

End RoomInvariants.

Lemma live_room_has_one_or_two_players_witness :
  (1000 <= 1234 <= 9999)%N /\
  1 <= List.length (keys (players alice_bob_room)) <= 2.
Proof.
  apply (live_room_has_one_or_two_players room_1234 1234%N alice_bob_room).
  - apply (reachable_run alice_and_bob []); [repeat constructor | constructor].
  - reflexivity.
Defined.

Lemma room_codes_have_four_digits_witness :
  four_digits "1234" = true /\ four_digits "1234" = true.
Proof.
  split.
  - apply (proj1 (room_codes_have_four_digits (@nil (N * Room (list Move))))
             "A" "Alice" 234%N "1234" white waiting).
    + reflexivity.
    + left. reflexivity.
  - apply (proj2 (room_codes_have_four_digits room_1234)
             "1234" alice_bob_room).
    + apply (reachable_run alice_and_bob []);
        [repeat constructor | constructor].
    + reflexivity.
Defined.

(** ** The players of a room *)

Section PlayersInvariant.

Context {Game : Type} {engine : ChessEngine Game}.

Implicit Types (rooms : Rooms Game) (room : Room Game) (ps : Players).

Lemma includes_In id (ids : list string) : includes id ids = true <-> In id ids.
Proof.
  unfold includes. rewrite existsb_exists. split.
  - intros [x [Hin Hx]]. apply String.eqb_eq in Hx. now subst x.
  - intros Hin. exists id. split; [exact Hin | apply String.eqb_refl].
Qed.

Lemma keys_players_set id p ps :
  keys (players_set id p ps)
  = if includes id (keys ps) then keys ps else (keys ps ++ [id])%list.
Proof.
  unfold keys, includes.
  induction ps as [|e t IH]; simpl; [reflexivity|].
  rewrite (String.eqb_sym id (fst e)).
  destruct (String.eqb_spec (fst e) id) as [He|He]; simpl.
  - now rewrite He.
  - rewrite IH. now destruct (existsb _ _).
Qed.

Lemma NoDup_snoc {A : Type} (x : A) (l : list A) :
  NoDup l -> ~ In x l -> NoDup (l ++ [x]).
Proof.
  induction 1 as [|y l Hy Hl IH]; simpl; intros Hx.
  - constructor; [intros [] | constructor].
  - constructor.
    + rewrite in_app_iff. simpl. intros [H|[H|[]]]; [auto|].
      apply Hx. now left.
    + apply IH. intros H. apply Hx. now right.
Qed.

Lemma NoDup_keys_players_set id p ps :
  NoDup (keys ps) -> NoDup (keys (players_set id p ps)).
Proof.
  intros Hnd. rewrite keys_players_set.
  destruct (includes id (keys ps)) eqn:Hin; [exact Hnd|].
  apply NoDup_snoc; [exact Hnd|].
  intros H. apply includes_In in H. congruence.
Qed.

Lemma NoDup_keys_players_delete id ps :
  NoDup (keys ps) -> NoDup (keys (players_delete id ps)).
Proof.
  unfold keys, players_delete.
  induction ps as [|e t IH]; simpl; intros Hnd; [constructor|].
  inversion Hnd as [|x l Hx Hl]; subst.
  destruct (String.eqb (fst e) id); simpl; [now apply IH|].
  constructor; [|now apply IH].
  intros Hin. apply Hx.
  apply in_map_iff in Hin as [y [Hy Hin]].
  apply filter_In in Hin as [Hin _].
  apply in_map_iff. now exists y.
Qed.

Lemma whites_players_set_black id player_name ps :
  List.length (whites (players_set id {| color := black; name := player_name |} ps))
  <= List.length (whites ps).
Proof.
  unfold whites.
  induction ps as [|e t IH]; simpl; [apply le_n|].
  destruct (String.eqb (fst e) id); simpl.
  - destruct (Color_eqb _ _); simpl; lia.
  - destruct (Color_eqb _ _); simpl; lia.
Qed.

Lemma whites_players_delete id ps :
  List.length (whites (players_delete id ps)) <= List.length (whites ps).
Proof. unfold whites, players_delete. apply filter_filter_le. Qed.

(** Every handler keeps the socket ids of a room distinct and never adds a
    second white player. *)
Lemma handle_tidy id i rooms :
  Forall tidy_players rooms -> Forall tidy_players (fst (handle id i rooms)).
Proof.
  intros Hall.
  assert (Hsame : forall k f,
             (forall r, players (f r) = players r) ->
             Forall tidy_players (rooms_update k f rooms)).
  { intros k f Hf. apply Forall_rooms_update; [|exact Hall].
    intros r _. unfold tidy_players; simpl. now rewrite Hf. }
  destruct i; cbn [handle].
  - unfold create_room; cbn [fst]. apply Forall_rooms_set; [|exact Hall].
    split; simpl; [|lia].
    constructor; [intros [] | constructor].
  - unfold join_room.
    destruct (find _ rooms) as [[k room]|]; [|now destruct (inherited _)].
    destruct (Nat.leb _ _); [exact Hall|].
    destruct (includes _ _); [exact Hall|].
    assert (Hupd : Forall tidy_players
                     (rooms_update k
                        (fun r =>
                           set_gameState playing
                             (set_players
                                (players_set id
                                   {| color := black; name := player_name |}
                                   (players r)) r)) rooms)).
    { apply Forall_rooms_update; [|exact Hall].
      intros r _ [Hnd Hw]. split; simpl in *.
      - now apply NoDup_keys_players_set.
      - pose proof (whites_players_set_black id player_name (players r)). lia. }
    destruct (keys (players room)); cbn [fst]; [exact Hupd|].
    destruct (players_get _ _); exact Hupd.
  - unfold make_move.
    destruct (find_player_room id rooms) as [[k room]|]; [|exact Hall].
    destruct (players_get _ _); [|exact Hall].
    destruct (Color_eqb _ _); [|exact Hall].
    destruct (move _ _); [|now destruct (throws _ _)].
    now apply Hsame.
  - unfold offer_draw.
    destruct (find_player_room id rooms) as [[k room]|]; [|exact Hall].
    now destruct (find_opponent _ _).
  - unfold draw_response.
    destruct (find_player_room id rooms) as [[k room]|]; [|exact Hall].
    destruct (find_opponent _ _); [|exact Hall].
    destruct accepted; [now apply Hsame | exact Hall].
  - unfold resign_game.
    destruct (find_player_room id rooms) as [[k room]|]; [|exact Hall].
    destruct (find_opponent _ _); [now apply Hsame | exact Hall].
  - unfold disconnect.
    destruct (find_player_room id rooms) as [[k room]|]; [|exact Hall].
    cbn [fst].
    assert (Hupd : Forall tidy_players
                     (rooms_update k
                        (fun r =>
                           set_players (players_delete id (players r)) r)
                        rooms)).
    { apply Forall_rooms_update; [|exact Hall].
      intros r _ [Hnd Hw]. split; simpl in *.
      - now apply NoDup_keys_players_delete.
      - pose proof (whites_players_delete id (players r)). lia. }
    destruct (keys _); [now apply Forall_rooms_delete | exact Hupd].
Qed.

(** X3.  In every table the server can be in, the players of a room
    have distinct socket ids and at most one of them plays white: white is
    given to the creator of a room only, every socket that joins plays
    black. *)
Theorem room_players_distinct_one_white rooms k room :
  reachable rooms ->
  rooms_lookup k rooms = Some room ->
  NoDup (keys (players room)) /\
  List.length (whites (players room)) <= 1.
Proof.
  intros Hr Hl. apply rooms_lookup_In in Hl.
  assert (Hall : Forall tidy_players rooms).
  { clear Hl. induction Hr as [|rooms id i _ IH _]; [constructor|].
    now apply handle_tidy. }
  exact (proj1 (Forall_forall _ _) Hall _ Hl).
Qed.

End PlayersInvariant.

Lemma room_players_distinct_one_white_witness :
  NoDup (keys (players alice_bob_room)) /\
  List.length (whites (players alice_bob_room)) <= 1.
Proof.
  apply (room_players_distinct_one_white room_1234 1234%N alice_bob_room).
  - apply (reachable_run alice_and_bob []); [repeat constructor | constructor].
  - reflexivity.
Defined.

(** ** Rejections *)

Section Rejections.

Context {Game : Type} {engine : ChessEngine Game}.

Implicit Types (rooms : Rooms Game) (room : Room Game).

(** X4.  Whatever the message, an [error] event is only ever sent with
    [socket.emit] to the socket whose message is refused, and a handler
    that sends one leaves the table of rooms as it was. *)
Theorem error_only_to_caller_and_no_change rooms id i target message :
  In (target, ev_error message) (snd (handle id i rooms)) ->
  target = socket_emit id /\ fst (handle id i rooms) = rooms.
Proof.
  destruct i; cbn [handle].
  - unfold create_room; cbn [fst snd In]. intros [H|[]]; discriminate.
  - unfold join_room.
    destruct (find _ rooms) as [[k room]|].
    + destruct (Nat.leb _ _); cbn [fst snd In].
      { intros [[= <- _]|[]]. now split. }
      destruct (includes _ _); cbn [fst snd In].
      { intros [[= <- _]|[]]. now split. }
      destruct (keys (players room)); cbn [fst snd In]; [intros []|].
      destruct (players_get _ _); cbn [fst snd In]; [|intros []].
      intros [H|[H|[]]]; discriminate.
    + destruct (inherited _); cbn [fst snd In]; [intros []|].
      intros [[= <- _]|[]]. now split.
  - unfold make_move.
    destruct (find_player_room id rooms) as [[k room]|]; cbn [fst snd In].
    + destruct (players_get _ _); cbn [fst snd In].
      * destruct (Color_eqb _ _); cbn [fst snd In].
        -- destruct (move _ _); cbn [fst snd In].
           ++ intros [H|[]]; discriminate.
           ++ destruct (throws _ _); cbn [fst snd In]; [intros []|].
              intros [[= <- _]|[]]. now split.
        -- intros [[= <- _]|[]]. now split.
      * intros [[= <- _]|[]]. now split.
    + intros [[= <- _]|[]]. now split.
  - unfold offer_draw.
    destruct (find_player_room id rooms) as [[k room]|]; cbn [snd In];
      [|intros []].
    destruct (find_opponent _ _); cbn [snd In]; [|intros []].
    intros [H|[]]; discriminate.
  - unfold draw_response.
    destruct (find_player_room id rooms) as [[k room]|]; cbn [snd In];
      [|intros []].
    destruct (find_opponent _ _); cbn [snd In]; [|intros []].
    destruct accepted; cbn [snd In].
    + intros [H|[H|[]]]; discriminate.
    + intros [H|[]]; discriminate.
  - unfold resign_game.
    destruct (find_player_room id rooms) as [[k room]|]; cbn [snd In];
      [|intros []].
    destruct (find_opponent _ _); cbn [snd In]; [|intros []].
    intros [H|[]]; discriminate.
  - unfold disconnect.
    destruct (find_player_room id rooms) as [[k room]|]; cbn [snd In];
      [|intros []].
    intros [H|[]]; discriminate.
Qed.

End Rejections.

Lemma error_only_to_caller_and_no_change_witness :
  socket_emit "C" = socket_emit "C" /\
  fst (handle "C" (JoinRoom "4321" "Carol") room_1234) = room_1234.
Proof.
  apply (error_only_to_caller_and_no_change room_1234 "C"
           (JoinRoom "4321" "Carol") (socket_emit "C") "Room not found").
  left. reflexivity.
Defined.

(** ** A second player joins *)

Section Joining.

Context {Game : Type} {engine : ChessEngine Game}.

Implicit Types (rooms : Rooms Game) (room : Room Game).

Lemma join_room_second_player rooms id k room opponentId opp player_name :
  rooms_lookup k rooms = Some room ->
  players room = [(opponentId, opp)] ->
  opponentId <> id ->
  join_room id (roomKey k) player_name rooms
  = (rooms_update k
       (fun r =>
          set_gameState playing
            (set_players
               (players_set id {| color := black; name := player_name |}
                  (players r)) r)) rooms,
     [(socket_emit id, ev_room_joined (roomKey k) black (name opp) playing);
      (socket_to (roomKey k) id, ev_opponent_joined player_name playing)]).
Proof.
  intros Hl Hps Hne. unfold join_room.
  rewrite (find_code k room rooms Hl), Hps. cbn [keys map fst List.length].
  unfold includes; cbn [existsb Nat.leb].
  destruct (String.eqb_spec id opponentId) as [He|_]; [congruence|].
  cbn [orb set_gameState set_players players players_set fst].
  destruct (String.eqb_spec opponentId id) as [He|_]; [congruence|].
  unfold players_get; cbn [find fst snd].
  now rewrite String.eqb_refl.
Qed.

(** X5.  A socket that asks to join a room holding one other player is
    admitted: it is added after that player with the colour black, the room
    becomes [playing] with its game untouched, no other room changes, the
    joiner is sent [room_joined] with the other player's name and the other
    player [opponent_joined] with the joiner's. *)
Theorem join_room_admits_second_player
    rooms id k room opponentId opp player_name :
  rooms_lookup k rooms = Some room ->
  players room = [(opponentId, opp)] ->
  opponentId <> id ->
  snd (join_room id (roomKey k) player_name rooms)
  = [(socket_emit id, ev_room_joined (roomKey k) black (name opp) playing);
     (socket_to (roomKey k) id, ev_opponent_joined player_name playing)] /\
  rooms_lookup k (fst (join_room id (roomKey k) player_name rooms))
  = Some {| players := [(opponentId, opp);
                        (id, {| color := black; name := player_name |})];
            game := game room;
            gameState := playing |} /\
  forall j,
    j <> k ->
    rooms_lookup j (fst (join_room id (roomKey k) player_name rooms))
    = rooms_lookup j rooms.
Proof.
  intros Hl Hps Hne.
  rewrite (join_room_second_player rooms id k room opponentId opp player_name)
    by assumption.
  cbn [fst snd]. split; [reflexivity|]. split.
  - rewrite rooms_lookup_update, N.eqb_refl, Hl. cbn [option_map].
    unfold set_gameState, set_players; cbn [players game gameState].
    rewrite Hps. cbn [players_set fst].
    destruct (String.eqb_spec opponentId id); [contradiction | reflexivity].
  - intros j Hj. rewrite rooms_lookup_update.
    destruct (N.eqb_spec j k); [contradiction | reflexivity].
Qed.

(** X6.  The code a creator is told opens the room to the next socket:
    after [create_room], a [join_room] by another socket with the code of
    the [room_created] event succeeds, whatever the table was, and leaves
    under that code a [playing] room with the creator as white, the joiner
    as black and a new game. *)
Theorem create_then_join rooms id id' playerName player_name rnd :
  id <> id' ->
  snd (create_room id playerName rnd rooms)
  = [(socket_emit id,
      ev_room_created (roomKey (draw_roomId rnd)) white waiting)] /\
  snd (join_room id' (roomKey (draw_roomId rnd)) player_name
         (fst (create_room id playerName rnd rooms)))
  = [(socket_emit id',
      ev_room_joined (roomKey (draw_roomId rnd)) black playerName playing);
     (socket_to (roomKey (draw_roomId rnd)) id',
      ev_opponent_joined player_name playing)] /\
  rooms_lookup (draw_roomId rnd)
    (fst (join_room id' (roomKey (draw_roomId rnd)) player_name
            (fst (create_room id playerName rnd rooms))))
  = Some {| players := [(id, {| color := white; name := playerName |});
                        (id', {| color := black; name := player_name |})];
            game := new_Chess;
            gameState := playing |}.
Proof.
  intros Hne. split; [reflexivity|].
  assert (Hl : rooms_lookup (draw_roomId rnd)
                 (fst (create_room id playerName rnd rooms))
               = Some {| players :=
                           [(id, {| color := white; name := playerName |})];
                         game := new_Chess;
                         gameState := waiting |}).
  { unfold create_room; cbn [fst].
    now rewrite rooms_lookup_set, N.eqb_refl. }
  rewrite (join_room_second_player _ id' _ _ id
             {| color := white; name := playerName |} player_name Hl eq_refl Hne).
  cbn [fst snd]. split; [reflexivity|].
  rewrite rooms_lookup_update, N.eqb_refl, Hl. cbn [option_map].
  unfold set_gameState, set_players; cbn [players game gameState players_set fst].
  destruct (String.eqb_spec id id'); [contradiction | reflexivity].
Qed.

End Joining.

Lemma join_room_admits_second_player_witness :
  snd (join_room "B" (roomKey 1234) "Bob" (run [("A", CreateRoom "Alice" 234)] []))
  = [(socket_emit "B", ev_room_joined (roomKey 1234) black "Alice" playing);
     (socket_to (roomKey 1234) "B", ev_opponent_joined "Bob" playing)].
Proof.
  refine (proj1 (join_room_admits_second_player
                   (run [("A", CreateRoom "Alice" 234)] []) "B" 1234%N
                   {| players := [("A", {| color := white; name := "Alice" |})];
                      game := [];
                      gameState := waiting |}
                   "A" {| color := white; name := "Alice" |} "Bob"
                   eq_refl eq_refl _)).
  discriminate.
Defined.

Lemma create_then_join_witness :
  rooms_lookup (draw_roomId 234)
    (fst (join_room "B" (roomKey (draw_roomId 234)) "Bob"
            (fst (create_room "A" "Alice" 234 room_1234))))
  = Some {| players := [("A", {| color := white; name := "Alice" |});
                        ("B", {| color := black; name := "Bob" |})];
            game := [];
            gameState := playing |}.
Proof.
  refine (proj2 (proj2 (create_then_join room_1234 "A" "B" "Alice" "Bob" 234 _))).
  discriminate.
Defined.

(** ** The game of a room *)

Section GameIntegrity.

Context {Game : Type} {engine : ChessEngine Game}.

Implicit Types (rooms : Rooms Game) (room : Room Game).

(** X7.  The game of a live room changes in one way only: a
    [make_move] by the player whose colour is to move, with a move that
    [game.move] accepts, puts the game [game.move] made in its place.
    Every other message leaves the game of every room that stays in the
    table as it was, except a [create_room] drawing the room's code, which
    puts a new room with a new game there. *)
Theorem game_changes_only_by_accepted_move rooms id i k room room' :
  reachable rooms ->
  rooms_lookup k rooms = Some room ->
  rooms_lookup k (fst (handle id i rooms)) = Some room' ->
  game room' = game room \/
  (exists m,
      i = MakeMove m /\
      assigned_color id room = Some (side_to_move room) /\
      move (game room) m = Some (game room')) \/
  (exists playerName rnd,
      i = CreateRoom playerName rnd /\
      draw_roomId rnd = k /\
      game room' = new_Chess).
Proof.
  intros Hr Hk.
  pose proof (reachable_ascending rooms Hr) as Hs.
  assert (Hsame : rooms_lookup k rooms = Some room' ->
                  game room' = game room \/
                  (exists m,
                      i = MakeMove m /\
                      assigned_color id room = Some (side_to_move room) /\
                      move (game room) m = Some (game room')) \/
                  (exists playerName rnd,
                      i = CreateRoom playerName rnd /\
                      draw_roomId rnd = k /\
                      game room' = new_Chess)).
  { rewrite Hk. intros [= <-]. now left. }
  assert (Hupd : forall j f,
             (forall r, game (f r) = game r) ->
             rooms_lookup k (rooms_update j f rooms) = Some room' ->
             game room' = game room).
  { intros j f Hf. rewrite rooms_lookup_update, Hk.
    destruct (N.eqb k j); cbn [option_map]; intros [= <-];
      [apply Hf | reflexivity]. }
  destruct i; cbn [handle].
  - unfold create_room; cbn [fst]. rewrite rooms_lookup_set.
    destruct (N.eqb_spec k (draw_roomId rnd)) as [->|_]; [|exact Hsame].
    intros [= <-]. right; right. now exists playerName, rnd.
  - unfold join_room.
    destruct (find _ rooms) as [[j room0]|]; [|now destruct (inherited _)].
    destruct (Nat.leb _ _); [exact Hsame|].
    destruct (includes _ _); [exact Hsame|].
    destruct (keys (players room0)); cbn [fst];
      [intros H; left; revert H; now apply Hupd|].
    destruct (players_get _ _); cbn [fst];
      intros H; left; revert H; now apply Hupd.
  - unfold make_move.
    destruct (find_player_room id rooms) as [[j room0]|] eqn:Hfind;
      [|exact Hsame].
    destruct (players_get id (players room0)) as [player|] eqn:Hp;
      [|exact Hsame].
    destruct (Color_eqb _ _) eqn:Hc; [|exact Hsame].
    destruct (move (game room0) m) as [g'|] eqn:Hm;
      [|now destruct (throws _ _)].
    cbn [fst]. rewrite rooms_lookup_update, Hk.
    destruct (N.eqb_spec k j) as [->|_]; cbn [option_map]; intros [= <-];
      [|now left].
    apply (find_player_room_lookup id rooms j room0 Hs) in Hfind.
    rewrite Hk in Hfind. injection Hfind as <-.
    right; left. exists m. repeat split; [|exact Hm].
    unfold assigned_color, side_to_move. rewrite Hp. cbn [option_map].
    apply Color_eqb_eq in Hc. now rewrite Hc.
  - unfold offer_draw.
    destruct (find_player_room id rooms) as [[j room0]|]; [|exact Hsame].
    destruct (find_opponent _ _); exact Hsame.
  - unfold draw_response.
    destruct (find_player_room id rooms) as [[j room0]|]; [|exact Hsame].
    destruct (find_opponent _ _); [|exact Hsame].
    destruct accepted; [|exact Hsame].
    cbn [fst]. intros H; left; revert H. now apply Hupd.
  - unfold resign_game.
    destruct (find_player_room id rooms) as [[j room0]|]; [|exact Hsame].
    destruct (find_opponent _ _); [|exact Hsame].
    cbn [fst]. intros H; left; revert H. now apply Hupd.
  - unfold disconnect.
    destruct (find_player_room id rooms) as [[j room0]|]; [|exact Hsame].
    cbn [fst]. destruct (keys _).
    + rewrite rooms_lookup_delete. destruct (N.eqb k j); [discriminate|].
      intros H; left; revert H. now apply Hupd.
    + intros H; left; revert H. now apply Hupd.
Qed.

Lemma find_rooms_update (Q : Room Game -> bool) j f rooms :
  (forall r, Q (f r) = Q r) ->
  find (fun e => Q (snd e)) (rooms_update j f rooms)
  = option_map (fun e => if N.eqb (fst e) j then (fst e, f (snd e)) else e)
      (find (fun e => Q (snd e)) rooms).
Proof.
  intros Hf. unfold rooms_update.
  induction rooms as [|e t IH]; simpl; [reflexivity|].
  destruct (N.eqb (fst e) j) eqn:E; simpl; [rewrite Hf|];
    destruct (Q (snd e)); simpl; rewrite ?E; auto.
Qed.

Lemma rooms_update_comm j k f g rooms :
  (forall r, f (g r) = g (f r)) ->
  rooms_update j f (rooms_update k g rooms)
  = rooms_update k g (rooms_update j f rooms).
Proof.
  intros Hfg. unfold rooms_update. rewrite !map_map.
  apply map_ext. intros e.
  destruct (N.eqb (fst e) k) eqn:Ek, (N.eqb (fst e) j) eqn:Ej; simpl;
    rewrite ?Ek, ?Ej; simpl; [now rewrite Hfg | reflexivity ..].
Qed.

(** X8.  [make_move] never looks at [gameState]: setting the phase of
    any room to any value, before the move or after it, gives the same
    table and the same events.  A move by the player to move is thus
    played in a [waiting] or [finished] room as in a [playing] one. *)
Theorem make_move_ignores_gameState rooms id m j s :
  make_move id m (rooms_update j (set_gameState s) rooms)
  = (rooms_update j (set_gameState s) (fst (make_move id m rooms)),
     snd (make_move id m rooms)).
Proof.
  unfold make_move, find_player_room.
  rewrite (find_rooms_update
             (fun r => match players_get id (players r) with
                       | Some _ => true
                       | None => false
                       end) j (set_gameState s) rooms) by reflexivity.
  destruct (find _ rooms) as [[k room]|]; cbn [option_map fst snd];
    [|reflexivity].
  assert (Hroom : forall r : Room Game,
             players (if N.eqb k j then set_gameState s r else r) = players r
             /\ game (if N.eqb k j then set_gameState s r else r) = game r).
  { intros r. now destruct (N.eqb k j). }
  destruct (N.eqb k j) eqn:Ekj; cbn [fst snd players game set_gameState];
    destruct (players_get id (players room)); try reflexivity;
    destruct (Color_eqb _ _); try reflexivity;
    (destruct (move _ _); [|now destruct (throws _ _)]);
    cbn [fst snd]; f_equal; apply rooms_update_comm; reflexivity.
Qed.

End GameIntegrity.

Lemma game_changes_only_by_accepted_move_witness :
  game (set_game [e7e8] alice_bob_room) = game alice_bob_room \/
  (exists m,
      MakeMove e7e8 = MakeMove m /\
      assigned_color "A" alice_bob_room = Some (side_to_move alice_bob_room) /\
      move (game alice_bob_room) m
      = Some (game (set_game [e7e8] alice_bob_room))) \/
  (exists playerName rnd,
      MakeMove e7e8 = CreateRoom playerName rnd /\
      draw_roomId rnd = 1234%N /\
      game (set_game [e7e8] alice_bob_room) = new_Chess).
Proof.
  apply (game_changes_only_by_accepted_move room_1234 "A" (MakeMove e7e8)
           1234%N alice_bob_room (set_game [e7e8] alice_bob_room)).
  - apply (reachable_run alice_and_bob []); [repeat constructor | constructor].
  - reflexivity.
  - reflexivity.
Defined.

(** ** Draw offers and resignation *)

Section OfferAndResign.

Context {Game : Type} {engine : ChessEngine Game}.

Implicit Types (rooms : Rooms Game) (room : Room Game).

Lemma find_opponent_other id room opponentId :
  find_opponent id (keys (players room)) = Some opponentId ->
  opponentId <> id /\ is_member opponentId room = true.
Proof.
  unfold find_opponent. intros H.
  apply find_some in H as [Hin Hne]. split.
  - intros ->. now rewrite String.eqb_refl in Hne.
  - rewrite <- includes_is_member. now apply includes_In.
Qed.

(** X9.  [offer_draw] sends at most one event, and only
    [draw_offered]: it goes to another player of the room the handler finds
    for the caller, never to the caller itself nor to a socket outside
    that room. *)
Theorem offer_draw_reaches_other_player rooms id :
  List.length (snd (offer_draw id rooms)) <= 1 /\
  forall target ev,
    In (target, ev) (snd (offer_draw id rooms)) ->
    ev = ev_draw_offered /\
    exists k room opponentId,
      find_player_room id rooms = Some (k, room) /\
      target = socket_to opponentId id /\
      opponentId <> id /\
      is_member opponentId room = true.
Proof.
  unfold offer_draw.
  destruct (find_player_room id rooms) as [[k room]|]; cbn [snd];
    [|split; [simpl; lia | intros ? ? []]].
  destruct (find_opponent id (keys (players room))) as [opponentId|] eqn:Ho;
    cbn [snd]; [|split; [simpl; lia | intros ? ? []]].
  split; [simpl; lia|].
  intros target ev [[= <- <-]|[]]. split; [reflexivity|].
  exists k, room, opponentId.
  destruct (find_opponent_other id room opponentId Ho) as [Hne Hm].
  now repeat split.
Qed.

(** X10.  When the room found for the caller has another player,
    [resign_game] makes that room [finished], keeping its players and its
    game, changes no other room, and sends one event, [opponent_resigned],
    to the other player; the resigning socket is sent nothing. *)
Theorem resign_game_finishes_room rooms id k room opponentId :
  reachable rooms ->
  find_player_room id rooms = Some (k, room) ->
  find_opponent id (keys (players room)) = Some opponentId ->
  snd (resign_game id rooms) = [(socket_to opponentId id, ev_opponent_resigned)]
  /\ rooms_lookup k (fst (resign_game id rooms))
     = Some {| players := players room;
               game := game room;
               gameState := finished |}
  /\ forall j,
      j <> k ->
      rooms_lookup j (fst (resign_game id rooms)) = rooms_lookup j rooms.
Proof.
  intros Hr Hfind Ho.
  pose proof (find_player_room_lookup id rooms k room
                (reachable_ascending rooms Hr) Hfind) as Hl.
  unfold resign_game. rewrite Hfind, Ho. cbn [fst snd].
  split; [reflexivity|]. split.
  - now rewrite rooms_lookup_update, N.eqb_refl, Hl.
  - intros j Hj. rewrite rooms_lookup_update.
    destruct (N.eqb_spec j k); [contradiction | reflexivity].
Qed.

End OfferAndResign.

Lemma offer_draw_reaches_other_player_witness :
  ev_draw_offered = ev_draw_offered /\
  exists k room opponentId,
    find_player_room "A" room_1234 = Some (k, room) /\
    socket_to "B" "A" = socket_to opponentId "A" /\
    opponentId <> "A" /\
    is_member opponentId room = true.
Proof.
  apply (proj2 (offer_draw_reaches_other_player room_1234 "A")
           (socket_to "B" "A") ev_draw_offered).
  left. reflexivity.
Defined.

Lemma resign_game_finishes_room_witness :
  rooms_lookup 1234 (fst (resign_game "B" room_1234))
  = Some {| players := players alice_bob_room;
            game := game alice_bob_room;
            gameState := finished |}.
Proof.
  refine (proj1 (proj2 (resign_game_finishes_room room_1234 "B" 1234%N
                          alice_bob_room "A" _ eq_refl eq_refl))).
  apply (reachable_run alice_and_bob []); [repeat constructor | constructor].
Defined.

(** ** Leaving *)

Section Leaving.

Context {Game : Type} {engine : ChessEngine Game}.

Implicit Types (rooms : Rooms Game) (room : Room Game).

Lemma inherited_roomKey k : inherited (roomKey k) = false.
Proof. unfold roomKey. now destruct (N.to_uint k). Qed.

Lemma find_roomKey k rooms :
  find (fun e => String.eqb (roomKey (fst e)) (roomKey k)) rooms
  = find (fun e : N * Room Game => N.eqb (fst e) k) rooms.
Proof.
  induction rooms as [|e t IH]; simpl; [reflexivity|].
  rewrite roomKey_eqb. now rewrite IH.
Qed.

Lemma join_room_not_found id k player_name rooms :
  rooms_lookup k rooms = None ->
  join_room id (roomKey k) player_name rooms
  = (rooms, [(socket_emit id, ev_error "Room not found")]).
Proof.
  unfold rooms_lookup, join_room. rewrite find_roomKey.
  destruct (find _ rooms); [discriminate|].
  now rewrite inherited_roomKey.
Qed.

Lemma keys_single id ps :
  keys ps = [id] -> players_delete id ps = [].
Proof.
  destruct ps as [|[x p] [|e t]]; simpl; try discriminate.
  intros [= ->]. now rewrite String.eqb_refl.
Qed.

(** In a table in enumeration order, the room a handler finds for a
    socket has the least code of the rooms that have the socket. *)
Lemma find_least_code (P : N * Room Game -> bool) rooms k room :
  ascending rooms ->
  find P rooms = Some (k, room) ->
  forall j r, In (j, r) rooms -> P (j, r) = true -> (k <= j)%N.
Proof.
  unfold ascending.
  induction rooms as [|e t IH]; simpl; intros Hs Hfind j r Hin Hp;
    [destruct Hin|].
  apply StronglySorted_inv in Hs as [Ht He].
  destruct (P e) eqn:Hpe.
  - injection Hfind as ->. destruct Hin as [[= <- <-]|Hin]; [lia|].
    apply (in_map fst) in Hin.
    apply (proj1 (Forall_forall _ _) He) in Hin. simpl in Hin. lia.
  - destruct Hin as [->|Hin]; [congruence|].
    now apply (IH Ht Hfind j r).
Qed.

(** The room of least code among those that have the socket is the one the
    handlers find for it. *)
Lemma first_room_found id rooms k room :
  ascending rooms ->
  rooms_lookup k rooms = Some room ->
  is_member id room = true ->
  (forall j r, rooms_lookup j rooms = Some r -> is_member id r = true ->
               (k <= j)%N) ->
  find_player_room id rooms = Some (k, room).
Proof.
  intros Hs Hl Hm Hleast.
  pose proof (rooms_lookup_In k room rooms Hl) as Hin.
  destruct (find_player_room id rooms) as [[k' room']|] eqn:Hfind.
  - pose proof (find_least_code _ rooms k' room' Hs Hfind k room Hin Hm) as Hle.
    pose proof (find_player_room_In id rooms k' room' Hfind) as Hin'.
    assert (Hm' : is_member id room' = true).
    { apply find_some in Hfind as [_ H]. exact H. }
    pose proof (Hleast k' room' (In_rooms_lookup k' room' rooms Hs Hin') Hm')
      as Hge.
    assert (k' = k) by lia. subst k'.
    now rewrite (ascending_In_unique k room' room rooms Hs Hin' Hin).
  - pose proof (find_none _ _ Hfind _ Hin) as H. cbn [snd] in H.
    unfold is_member in Hm. now rewrite Hm in H.
Qed.

(** X11.  A disconnecting socket leaves one room, the one of least code
    among the rooms it is a player of.  When it is the only player of that
    room, the room is deleted; every other room, those the socket is also
    a player of included, is untouched; and a [join_room] with the code of
    the deleted room is then answered "Room not found". *)
Theorem last_player_leaving_deletes_room rooms id k room id' player_name :
  reachable rooms ->
  rooms_lookup k rooms = Some room ->
  keys (players room) = [id] ->
  (forall j r, rooms_lookup j rooms = Some r -> is_member id r = true ->
               (k <= j)%N) ->
  rooms_lookup k (fst (disconnect id rooms)) = None /\
  (forall j,
      j <> k ->
      rooms_lookup j (fst (disconnect id rooms)) = rooms_lookup j rooms) /\
  join_room id' (roomKey k) player_name (fst (disconnect id rooms))
  = (fst (disconnect id rooms),
     [(socket_emit id', ev_error "Room not found")]).
Proof.
  intros Hr Hl Hkeys Hleast.
  assert (Hm : is_member id room = true).
  { rewrite <- includes_is_member, Hkeys. apply includes_In. now left. }
  pose proof (first_room_found id rooms k room
                (reachable_ascending rooms Hr) Hl Hm Hleast) as Hfind.
  assert (Hd : fst (disconnect id rooms) = rooms_delete k rooms).
  { unfold disconnect. rewrite Hfind. cbn [fst players set_players].
    rewrite (keys_single id (players room) Hkeys). cbn [keys map].
    apply rooms_delete_update. }
  assert (Hnone : rooms_lookup k (fst (disconnect id rooms)) = None).
  { now rewrite Hd, rooms_lookup_delete, N.eqb_refl. }
  split; [exact Hnone|]. split.
  - intros j Hj. rewrite Hd, rooms_lookup_delete.
    destruct (N.eqb_spec j k); [contradiction | reflexivity].
  - now apply join_room_not_found.
Qed.

Lemma rooms_of_nil_find id rooms :
  rooms_of id rooms = [] -> find_player_room id rooms = None.
Proof.
  unfold rooms_of, find_player_room, is_member.
  induction rooms as [|e t IH]; simpl; [reflexivity|].
  destruct (players_get id (players (snd e))); [discriminate | exact IH].
Qed.

Lemma find_rooms_of_nil id rooms :
  find_player_room id rooms = None -> rooms_of id rooms = [].
Proof.
  unfold rooms_of, find_player_room, is_member.
  induction rooms as [|e t IH]; simpl; [reflexivity|].
  destruct (players_get id (players (snd e))); [discriminate | exact IH].
Qed.

(** Mutating the one room of code [k] so that it no longer satisfies [P]
    takes one room off those that satisfy [P]. *)
Lemma filter_update_drop (P : Room Game -> bool) k f room rooms :
  NoDup (codes rooms) ->
  In (k, room) rooms ->
  P room = true ->
  P (f room) = false ->
  List.length (filter (fun e => P (snd e)) (rooms_update k f rooms))
  = pred (List.length (filter (fun e => P (snd e)) rooms)).
Proof.
  unfold rooms_update.
  induction rooms as [|e t IH]; simpl; intros Hnd Hin Hp Hfp; [destruct Hin|].
  inversion Hnd as [|x l Hx Hl]; subst.
  destruct (N.eqb_spec (fst e) k) as [Hk|Hk].
  - assert (He : e = (k, room)).
    { destruct Hin as [He|Hin]; [exact He|].
      exfalso. apply Hx. rewrite Hk. now apply (in_map fst t (k, room)). }
    assert (Ht : map (fun e0 => if N.eqb (fst e0) k
                                 then (fst e0, f (snd e0)) else e0) t = t).
    { rewrite <- (map_id t) at 2. apply map_ext_in.
      intros e0 Hin0. destruct (N.eqb_spec (fst e0) k) as [Hk0|]; [|reflexivity].
      exfalso. apply Hx. rewrite Hk, <- Hk0. now apply in_map. }
    rewrite Ht. subst e. cbn [fst snd]. now rewrite Hp, Hfp.
  - destruct Hin as [He|Hin]; [subst e; now cbn [fst] in Hk|].
    specialize (IH Hl Hin Hp Hfp).
    destruct (P (snd e)); simpl; [|exact IH].
    rewrite IH.
    assert (Hpos : List.length (filter (fun e0 => P (snd e0)) t) <> 0).
    { intros H0. apply length_zero_iff_nil in H0.
      assert (Hf : In (k, room) (filter (fun e0 => P (snd e0)) t))
        by (apply filter_In; now split).
      now rewrite H0 in Hf. }
    lia.
Qed.

Lemma filter_delete_same (P : N * Room Game -> bool) k rooms :
  (forall e, In e rooms -> fst e = k -> P e = false) ->
  filter P (rooms_delete k rooms) = filter P rooms.
Proof.
  unfold rooms_delete.
  induction rooms as [|e t IH]; simpl; intros H; [reflexivity|].
  destruct (N.eqb_spec (fst e) k) as [Hk|Hk]; simpl.
  - rewrite (H e (or_introl eq_refl) Hk). apply IH.
    intros e0 Hin. apply H. now right.
  - rewrite IH; [reflexivity|]. intros e0 Hin. apply H. now right.
Qed.

Lemma disconnect_rooms_of_count rooms id :
  ascending rooms ->
  List.length (rooms_of id (fst (disconnect id rooms)))
  = pred (List.length (rooms_of id rooms)).
Proof.
  intros Hs.
  pose proof (ascending_NoDup rooms Hs) as Hnd.
  unfold disconnect.
  destruct (find_player_room id rooms) as [[k room]|] eqn:Hfind; cbn [fst].
  - assert (Hupd : List.length
                     (rooms_of id
                        (rooms_update k
                           (fun r =>
                              set_players (players_delete id (players r)) r)
                           rooms))
                   = pred (List.length (rooms_of id rooms))).
    { apply (filter_update_drop (is_member id) k _ room rooms Hnd).
      - now apply find_player_room_In in Hfind.
      - apply find_some in Hfind as [_ Hm]. exact Hm.
      - unfold is_member; cbn [players set_players].
        now rewrite players_get_delete_same. }
    destruct (keys _); [|exact Hupd].
    unfold rooms_of in *. rewrite filter_delete_same; [exact Hupd|].
    intros e Hin Hk. unfold rooms_update in Hin.
    apply in_map_iff in Hin as [e0 [<- _]].
    destruct (N.eqb_spec (fst e0) k) as [_|Hne]; [|contradiction].
    unfold is_member; cbn [snd players set_players].
    now rewrite players_get_delete_same.
  - now rewrite (find_rooms_of_nil id rooms Hfind).
Qed.

(** X12.  [disconnect] takes the socket out of exactly one room, the
    first that has it in the order of the table, that is the one of least
    code, even when the socket is a player of several: that room loses the
    socket, and is deleted if nobody is left in it; every other room is as
    it was, so the socket stays a player of its other rooms, one room
    fewer in all. *)
Theorem disconnect_leaves_one_room rooms id k room :
  reachable rooms ->
  rooms_lookup k rooms = Some room ->
  is_member id room = true ->
  (forall j r, rooms_lookup j rooms = Some r -> is_member id r = true ->
               (k <= j)%N) ->
  rooms_lookup k (fst (disconnect id rooms))
  = match players_delete id (players room) with
    | [] => None
    | ps => Some {| players := ps;
                    game := game room;
                    gameState := gameState room |}
    end /\
  players_get id (players_delete id (players room)) = None /\
  (forall j,
      j <> k ->
      rooms_lookup j (fst (disconnect id rooms)) = rooms_lookup j rooms) /\
  List.length (rooms_of id (fst (disconnect id rooms)))
  = pred (List.length (rooms_of id rooms)).
Proof.
  intros Hr Hl Hm Hleast.
  pose proof (reachable_ascending rooms Hr) as Hs.
  pose proof (first_room_found id rooms k room Hs Hl Hm Hleast) as Hfind.
  split; [|split; [apply players_get_delete_same|split]].
  - unfold disconnect. rewrite Hfind. cbn [fst players set_players].
    destruct (players_delete id (players room)) as [|p ps] eqn:Hps;
      cbn [keys map].
    + now rewrite rooms_lookup_delete, N.eqb_refl.
    + rewrite rooms_lookup_update, N.eqb_refl, Hl. cbn [option_map].
      unfold set_players. now rewrite Hps.
  - intros j Hj. unfold disconnect. rewrite Hfind. cbn [fst].
    destruct (keys _).
    + rewrite rooms_lookup_delete, rooms_lookup_update.
      destruct (N.eqb_spec j k); [contradiction | reflexivity].
    + rewrite rooms_lookup_update.
      destruct (N.eqb_spec j k); [contradiction | reflexivity].
  - now apply disconnect_rooms_of_count.
Qed.

(** X13.  A socket that is a player of no room changes nothing with
    [make_move], [offer_draw], [draw_response], [resign_game] or by
    disconnecting; the only event is the error "Not in a game" that
    answers its [make_move]. *)
Theorem non_member_changes_nothing rooms id i :
  rooms_of id rooms = [] ->
  enters_room i = false ->
  fst (handle id i rooms) = rooms /\
  snd (handle id i rooms)
  = match i with
    | MakeMove _ => [(socket_emit id, ev_error "Not in a game")]
    | _ => []
    end.
Proof.
  intros Hnone Hi. apply rooms_of_nil_find in Hnone.
  destruct i; try discriminate; cbn [handle];
    unfold make_move, offer_draw, draw_response, resign_game, disconnect;
    rewrite Hnone; now split.
Qed.

End Leaving.

(** Alice alone in rooms 2000 and 5000: leaving, she quits room 2000. *)
Lemma last_player_leaving_deletes_room_witness :
  rooms_lookup 2000
    (fst (disconnect "A"
            (run [("A", CreateRoom "Alice" 4000);
                  ("A", CreateRoom "Alice" 1000)] []))) = None /\
  rooms_lookup 5000
    (fst (disconnect "A"
            (run [("A", CreateRoom "Alice" 4000);
                  ("A", CreateRoom "Alice" 1000)] [])))
  = Some {| players := [("A", {| color := white; name := "Alice" |})];
            game := [];
            gameState := waiting |}.
Proof.
  assert (Hr : reachable (run [("A", CreateRoom "Alice" 4000);
                               ("A", CreateRoom "Alice" 1000)]
                            (@nil (N * Room (list Move))))).
  { apply reachable_run; [repeat constructor | constructor]. }
  assert (Hleast : forall j r,
             rooms_lookup j (run [("A", CreateRoom "Alice" 4000);
                                  ("A", CreateRoom "Alice" 1000)]
                               (@nil (N * Room (list Move)))) = Some r ->
             is_member "A" r = true -> (2000 <= j)%N).
  { intros j r Hj _. apply rooms_lookup_In in Hj. vm_compute in Hj.
    destruct Hj as [[= <- _]|[[= <- _]|[]]]; lia. }
  destruct (last_player_leaving_deletes_room
              (run [("A", CreateRoom "Alice" 4000);
                    ("A", CreateRoom "Alice" 1000)] [])
              "A" 2000%N
              {| players := [("A", {| color := white; name := "Alice" |})];
                 game := [];
                 gameState := waiting |}
              "B" "Bob" Hr eq_refl eq_refl Hleast) as [Hnone [Hother _]].
  split; [exact Hnone|].
  rewrite (Hother 5000%N) by discriminate. reflexivity.
Defined.

Lemma disconnect_leaves_one_room_witness :
  rooms_lookup 1234 (fst (disconnect "B" room_1234))
  = Some {| players := [("A", {| color := white; name := "Alice" |})];
            game := [];
            gameState := playing |}.
Proof.
  assert (Hr : reachable room_1234).
  { apply (reachable_run alice_and_bob []); [repeat constructor | constructor]. }
  assert (Hleast : forall j r,
             rooms_lookup j room_1234 = Some r ->
             is_member "B" r = true -> (1234 <= j)%N).
  { intros j r Hj _. apply rooms_lookup_In in Hj. vm_compute in Hj.
    destruct Hj as [[= <- _]|[]]. lia. }
  exact (proj1 (disconnect_leaves_one_room room_1234 "B" 1234%N alice_bob_room
                  Hr eq_refl eq_refl Hleast)).
Defined.

Lemma non_member_changes_nothing_witness :
  fst (handle "C" (MakeMove e7e8) room_1234) = room_1234 /\
  snd (handle "C" (MakeMove e7e8) room_1234)
  = [(socket_emit "C", ev_error "Not in a game")].
Proof.
  exact (non_member_changes_nothing room_1234 "C" (MakeMove e7e8)
           eq_refl eq_refl).
Defined.

(** ** Turns *)

Section Turns.

Context {Game : Type} {engine : ChessEngine Game}.

Implicit Types (rooms : Rooms Game) (room : Room Game).

(** The engine passes the turn with every move it makes. *)
Hypothesis move_passes_turn :
  forall (g g' : Game) (m : Move), move g m = Some g' -> turn g' <> turn g.

(** X14.  With an engine that passes the turn on every move it makes,
    nobody moves twice in a row: once a [make_move] of a socket has been
    accepted and broadcast, its next [make_move], whatever the move, is
    answered "Not your turn" and changes nothing. *)
Theorem no_two_moves_in_a_row rooms id m m' room_name payload :
  In (io_to room_name, payload) (snd (make_move id m rooms)) ->
  make_move id m' (fst (make_move id m rooms))
  = (fst (make_move id m rooms),
     [(socket_emit id, ev_error "Not your turn")]).
Proof.
  unfold make_move at 1 3 4, find_player_room.
  destruct (find _ rooms) as [[k room]|] eqn:Hfind; cbn [fst snd In];
    [|intros [H|[]]; discriminate].
  destruct (players_get id (players room)) as [player|] eqn:Hp;
    cbn [fst snd In]; [|intros [H|[]]; discriminate].
  destruct (Color_eqb _ _) eqn:Hc; cbn [fst snd In];
    [|intros [H|[]]; discriminate].
  destruct (move (game room) m) as [g'|] eqn:Hm; cbn [fst snd In];
    [|destruct (throws _ _); cbn [snd In];
      [intros [] | intros [H|[]]; discriminate]].
  intros _. unfold make_move, find_player_room.
  rewrite (find_rooms_update
             (fun r => match players_get id (players r) with
                       | Some _ => true
                       | None => false
                       end) k (set_game g') rooms) by reflexivity.
  rewrite Hfind. cbn [option_map fst snd]. rewrite N.eqb_refl.
  cbn [players game set_game]. rewrite Hp.
  apply Color_eqb_eq in Hc.
  pose proof (move_passes_turn _ _ _ Hm) as Hturn.
  destruct (Color_eqb (color player) _) eqn:Hc'; [|reflexivity].
  apply Color_eqb_eq in Hc'. exfalso. apply Hturn.
  rewrite Hc in Hc'.
  destruct (turn g'), (turn (game room)); congruence.
Qed.

End Turns.

Lemma no_two_moves_in_a_row_witness :
  make_move "A" e7e8 (fst (make_move "A" e7e8 room_1234))
  = (fst (make_move "A" e7e8 room_1234),
     [(socket_emit "A", ev_error "Not your turn")]).
Proof.
  refine (@no_two_moves_in_a_row (list Move) recording_engine _
            room_1234 "A" e7e8 e7e8 "1234"
            (ev_chess_move "e7" "e8" "q" "Alice" white) _).
  - intros g g' m [= <-]. cbn [turn recording_engine].
    rewrite length_app, Nat.add_comm. cbn [List.length Nat.add].
    rewrite Nat.even_succ, <- Nat.negb_even.
    now destruct (Nat.even (List.length g)).
  - left. reflexivity.
Defined.

(** ** The Stockfish worker *)

Module StockfishFacts.

Import Stockfish.

Lemma settled_app (es es' : list Effect) :
  settled (es ++ es') = (settled es ++ settled es')%list.
Proof.
  induction es as [|e es IH]; simpl; [reflexivity|].
  destruct e; simpl; now rewrite IH.
Qed.

Lemma settled_postMessage message m : settled (postMessage message m) = [].
Proof. unfold postMessage. now destruct (worker m). Qed.

(** The promises settled from a manager on are those the calls create and
    the one it holds callbacks of, each at most once. *)
Lemma settled_once_from (calls : list Call) :
  forall m,
    NoDup (promises calls) ->
    (forall p, bestMoveResolver m = Some p \/ bestMoveRejecter m = Some p ->
               ~ In p (promises calls)) ->
    NoDup (settled (effects calls m)) /\
    forall q, In q (settled (effects calls m)) ->
              In q (promises calls) \/
              bestMoveResolver m = Some q \/ bestMoveRejecter m = Some q.
Proof.
  induction calls as [|c calls IH]; intros m Hnd Hfresh.
  - split; [constructor | intros q []].
  - destruct c as [promise fen depth| |line|]; cbn [effects step promises] in *.
    + inversion Hnd as [|x l Hx Hl]; subst.
      unfold getBestMove.
      destruct (negb (isReady m) || _) eqn:Hbusy; cbn [fst snd].
      * destruct (IH m Hl) as [IHnd IHin].
        { intros p Hp Hin. apply (Hfresh p Hp). now right. }
        cbn [app settled]. split.
        -- constructor; [|exact IHnd].
           intros Hin. apply IHin in Hin as [Hin|Hin]; [contradiction|].
           apply (Hfresh promise Hin). now left.
        -- intros q [<-|Hq]; [left; now left|].
           apply IHin in Hq as [Hq|Hq]; [left; now right | now right].
      * rewrite !settled_app, !settled_postMessage. cbn [app].
        match goal with
        | |- context [effects calls ?m'] => destruct (IH m' Hl) as [IHnd IHin]
        end.
        { cbn [bestMoveResolver bestMoveRejecter].
          intros p [[= <-]|[= <-]]; exact Hx. }
        split; [exact IHnd|].
        intros q Hq. left.
        apply IHin in Hq as [Hq|Hq]; [now right|].
        cbn [bestMoveResolver bestMoveRejecter] in Hq.
        destruct Hq as [[= <-]|[= <-]]; now left.
    + unfold terminate; cbn [fst snd].
      rewrite settled_app.
      replace (settled (if worker m then [terminate_worker] else []))
        with (@nil nat) by now destruct (worker m).
      cbn [app].
      match goal with
      | |- context [effects calls ?m'] => destruct (IH m' Hnd) as [IHnd IHin]
      end.
      { cbn [bestMoveResolver bestMoveRejecter]. exact Hfresh. }
      split; [exact IHnd|]. intros q Hq. exact (IHin q Hq).
    + unfold handleMessage.
      pose proof (IH m Hnd Hfresh) as IHm.
      destruct (String.eqb line "readyok"); cbn [fst snd app].
      * match goal with
        | |- context [effects calls ?m'] => destruct (IH m' Hnd) as [IHnd IHin]
        end.
        { cbn [bestMoveResolver bestMoveRejecter]. exact Hfresh. }
        split; [exact IHnd|]. intros q Hq. exact (IHin q Hq).
      * destruct (String.prefix "bestmove" line);
          [destruct (bestMoveResolver m) as [p|] eqn:Hres|];
          cbn [fst snd app settled].
        -- destruct (IH (settle m) Hnd) as [IHnd IHin].
           { cbn [settle bestMoveResolver bestMoveRejecter].
             intros p0 [H|H]; discriminate. }
           split.
           ++ constructor; [|exact IHnd].
              intros Hin. apply IHin in Hin as [Hin|[Hin|Hin]];
                try discriminate.
              apply (Hfresh p); [now left | exact Hin].
           ++ intros q [<-|Hq]; [right; now left|].
              apply IHin in Hq as [Hq|[Hq|Hq]]; try discriminate. now left.
        -- exact IHm.
        -- exact IHm.
    + unfold handleError.
      pose proof (IH m Hnd Hfresh) as IHm.
      destruct (bestMoveRejecter m) as [p|] eqn:Hrej; cbn [fst snd app settled].
      * destruct (IH (settle m) Hnd) as [IHnd IHin].
        { cbn [settle bestMoveResolver bestMoveRejecter].
          intros p0 [H|H]; discriminate. }
        split.
        -- constructor; [|exact IHnd].
           intros Hin. apply IHin in Hin as [Hin|[Hin|Hin]];
             try discriminate.
           apply (Hfresh p); [now right | exact Hin].
        -- intros q [<-|Hq]; [right; now right|].
           apply IHin in Hq as [Hq|[Hq|Hq]]; try discriminate. now left.
      * exact IHm.
Qed.

(** X15.  Whatever the calls, messages and errors, no promise of
    [getBestMove] has its [resolve] or [reject] called twice, and none is
    settled that [getBestMove] did not create. *)
Theorem each_promise_settled_at_most_once (calls : list Call) :
  NoDup (promises calls) ->
  NoDup (settled (effects calls (fst constructed))) /\
  forall q, In q (settled (effects calls (fst constructed))) ->
            In q (promises calls).
Proof.
  intros Hnd.
  destruct (settled_once_from calls (fst constructed) Hnd) as [H1 H2].
  { intros p [H|H]; discriminate. }
  split; [exact H1|].
  intros q Hq. destruct (H2 q Hq) as [H|[H|H]]; [exact H | discriminate ..].
Qed.

End StockfishFacts.

Lemma each_promise_settled_at_most_once_witness :
  NoDup (Stockfish.settled
           (Stockfish.effects
              [Stockfish.GetBestMove 0 "8/8/8/8/8/8/8/8 w - - 0 1" 3;
               Stockfish.Message "readyok";
               Stockfish.GetBestMove 1 "8/8/8/8/8/8/8/8 w - - 0 1" 3;
               Stockfish.GetBestMove 2 "8/8/8/8/8/8/8/8 w - - 0 1" 3;
               Stockfish.Message "bestmove e2e4 ponder e7e5"]
              (fst Stockfish.constructed))).
Proof.
  apply (StockfishFacts.each_promise_settled_at_most_once
           [Stockfish.GetBestMove 0 "8/8/8/8/8/8/8/8 w - - 0 1" 3;
            Stockfish.Message "readyok";
            Stockfish.GetBestMove 1 "8/8/8/8/8/8/8/8 w - - 0 1" 3;
            Stockfish.GetBestMove 2 "8/8/8/8/8/8/8/8 w - - 0 1" 3;
            Stockfish.Message "bestmove e2e4 ponder e7e5"]).
  cbn [Stockfish.promises].
  repeat (constructor; [simpl; intuition discriminate|]). constructor.
Defined.

Module StockfishAnswers.

Import Stockfish.

Lemma split_nonempty c s : split c s <> [].
Proof.
  destruct s as [|x rest]; simpl; [discriminate|].
  destruct (Ascii.eqb x c); [discriminate|].
  destruct (split c rest); discriminate.
Qed.



(** X17.  Until the worker has said [readyok], every [getBestMove] is
    rejected at once: whatever else happens, nothing is posted to the
    worker after the constructor, no promise is resolved, and each promise
    is rejected with "Stockfish is not ready or is already thinking." *)
Theorem no_search_before_readyok (calls : list Call) :
  Forall (fun c => c <> Message "readyok") calls ->
  settled (effects calls (fst constructed)) = promises calls /\
  Forall (fun e =>
            e = terminate_worker \/
            exists promise,
              e = reject promise
                    "Stockfish is not ready or is already thinking.")
         (effects calls (fst constructed)).
Proof.
  intros Hcalls.
  assert (Hgen : forall m,
             isReady m = false ->
             bestMoveResolver m = None -> bestMoveRejecter m = None ->
             settled (effects calls m) = promises calls /\
             Forall (fun e =>
                       e = terminate_worker \/
                       exists promise,
                         e = reject promise
                               "Stockfish is not ready or is already thinking.")
                    (effects calls m)).
  { induction Hcalls as [|c calls Hc _ IH]; intros m Hready Hres Hrej.
    - split; constructor.
    - destruct c as [promise fen depth| |line|]; cbn [effects step promises].
      + unfold getBestMove. rewrite Hready. cbn [negb orb fst snd app settled].
        destruct (IH m Hready Hres Hrej) as [IHs IHf]. split.
        * now rewrite IHs.
        * constructor; [right; now exists promise | exact IHf].
      + unfold terminate; cbn [fst snd].
        match goal with
        | |- context [effects calls ?m'] =>
            destruct (IH m' Hready Hres Hrej) as [IHs IHf]
        end.
        destruct (worker m); cbn [app settled]; split; try exact IHs;
          try exact IHf.
        constructor; [now left | exact IHf].
      + unfold handleMessage.
        destruct (String.eqb_spec line "readyok") as [->|_];
          [now contradiction Hc|].
        rewrite Hres.
        destruct (String.prefix "bestmove" line); cbn [fst snd app];
          now apply IH.
      + unfold handleError. rewrite Hrej. cbn [fst snd app]. now apply IH. }
  now apply Hgen.
Qed.

(** X18.  Once [terminate] has been called nothing is posted any more:
    the worker is never created again, so a later [getBestMove] that the
    manager accepts sends no command at all. *)
Theorem nothing_posted_after_terminate (calls : list Call) (m : Manager) :
  filter is_post (effects calls (fst (terminate m))) = [].
Proof.
  assert (Hgen : forall m0, worker m0 = false ->
                            filter is_post (effects calls m0) = []).
  { clear m. induction calls as [|c calls IH]; intros m Hw; [reflexivity|].
    cbn [effects]. rewrite filter_app.
    destruct c as [promise fen depth| |line|]; cbn [step].
    - unfold getBestMove, postMessage.
      destruct (negb (isReady m) || _); cbn [fst snd worker];
        rewrite ?Hw; cbn [app filter is_post]; now apply IH.
    - unfold terminate. rewrite Hw. cbn [fst snd app filter]. now apply IH.
    - unfold handleMessage.
      destruct (String.eqb line "readyok"); cbn [fst snd app filter];
        [now apply IH|].
      destruct (String.prefix "bestmove" line); cbn [fst snd app filter];
        [|now apply IH].
      destruct (bestMoveResolver m); cbn [fst snd app filter is_post];
        now apply IH.
    - unfold handleError.
      destruct (bestMoveRejecter m); cbn [fst snd app filter is_post];
        now apply IH. }
  now apply Hgen.
Qed.

(** X19.  [makeAIMove] plays the first four characters of the worker's
    answer as origin and destination and always promotes to a queen: a
    promotion piece the worker names after them is dropped. *)
Theorem makeAIMove_drops_promotion_piece (origin destination piece : string) :
  String.length origin = 2 ->
  String.length destination = 2 ->
  makeAIMove (Some (origin ++ destination ++ piece))
  = Some {| from := origin; to := destination; promotion := Some "q" |}.
Proof.
  destruct origin as [|a [|b [|? ?]]]; try discriminate.
  destruct destination as [|c [|d [|? ?]]]; try discriminate.
  intros _ _. unfold makeAIMove, makeMove. cbn [append String.eqb].
  cbn [String.substring]. now destruct piece.
Qed.

End StockfishAnswers.


Lemma no_search_before_readyok_witness :
  Stockfish.settled
    (Stockfish.effects
       [Stockfish.GetBestMove 0 "8/8/8/8/8/8/8/8 w - - 0 1" 3;
        Stockfish.Message "uciok"]
       (fst Stockfish.constructed))
  = [0].
Proof.
  refine (proj1 (StockfishAnswers.no_search_before_readyok
                   [Stockfish.GetBestMove 0 "8/8/8/8/8/8/8/8 w - - 0 1" 3;
                    Stockfish.Message "uciok"] _)).
  repeat constructor; discriminate.
Defined.

Lemma makeAIMove_drops_promotion_piece_witness :
  Stockfish.makeAIMove (Some ("e7" ++ "e8" ++ "n"))
  = Some {| from := "e7"; to := "e8"; promotion := Some "q" |}.
Proof.
  exact (StockfishAnswers.makeAIMove_drops_promotion_piece "e7" "e8" "n"
           eq_refl eq_refl).
Defined.

(** ** The move list *)

Module MoveHistoryFacts.

Import MoveHistory.




End MoveHistoryFacts.

(** ** The clocks *)

Module ClockFacts.

Import Clock.

Lemma seconds_padded (r : N) :
  (r < 60)%N -> two_digits_of r (padStart 2 "0" (Stockfish.decimal r)) = true.
Proof.
  intros Hr.
  assert (H : forallb (fun n => two_digits_of (N.of_nat n)
                                  (padStart 2 "0"
                                     (Stockfish.decimal (N.of_nat n))))
                (seq 0 60) = true) by (vm_compute; reflexivity).
  rewrite forallb_forall in H.
  specialize (H (N.to_nat r)). rewrite N2Nat.id in H.
  apply H, in_seq. lia.
Qed.

(** X21.  [formatTime] shows the whole minutes, a colon and the
    remaining seconds always on two digits, zero-padded. *)
Theorem formatTime_two_digit_seconds (seconds : N) :
  exists c1 c2,
    formatTime seconds
    = Stockfish.decimal (seconds / 60) ++ ":" ++ String c1 (String c2 "") /\
    is_digit c1 = true /\ is_digit c2 = true /\
    N.of_nat (digit_value c1 * 10 + digit_value c2) = (seconds mod 60)%N.
Proof.
  assert (Hr : (seconds mod 60 < 60)%N) by (apply N.mod_lt; discriminate).
  pose proof (seconds_padded _ Hr) as H.
  unfold formatTime.
  destruct (padStart 2 "0" (Stockfish.decimal (seconds mod 60)))
    as [|c1 [|c2 [|? ?]]]; try discriminate.
  cbn [two_digits_of] in H.
  apply andb_prop in H as [H H3]. apply andb_prop in H as [H1 H2].
  apply N.eqb_eq in H3.
  now exists c1, c2.
Qed.

Lemma tick_time (prev : Z) : fst (tick prev) = Z.max 0 (prev - 1).
Proof. unfold tick. destruct (Z.leb_spec (prev - 1) 0); cbn [fst]; lia. Qed.

Lemma tick_flag (prev : Z) : snd (tick prev) = true <-> (prev <= 1)%Z.
Proof.
  unfold tick. destruct (Z.leb_spec (prev - 1) 0); cbn [snd];
    split; intros; try discriminate; try reflexivity; lia.
Qed.

(** X22.  A clock never goes below zero: after [n] seconds a clock
    that had [time] seconds left shows [time - n], or 0 once that is
    negative, and the next second calls [handleGameOver] exactly when one
    second or less is left. *)
Theorem clock_runs_down_to_zero (time : Z) (n : nat) :
  (0 <= time)%Z ->
  after n time = Z.max 0 (time - Z.of_nat n) /\
  (snd (tick (after n time)) = true <-> (time - Z.of_nat n <= 1)%Z).
Proof.
  intros Htime.
  assert (Hafter : forall m t, (0 <= t)%Z ->
                               after m t = Z.max 0 (t - Z.of_nat m)).
  { induction m as [|m IH]; intros t Ht; cbn [after].
    - lia.
    - rewrite IH; rewrite tick_time; lia. }
  split; [now apply Hafter|].
  rewrite tick_flag, (Hafter n time Htime). lia.
Qed.

End ClockFacts.

Lemma clock_runs_down_to_zero_witness :
  Clock.after 600 600 = Z.max 0 (600 - Z.of_nat 600).
Proof.
  refine (proj1 (ClockFacts.clock_runs_down_to_zero 600 600 _)).
  discriminate.
Defined.

(** ** The squares of the board *)

Module BoardFacts.

Import Board.

Lemma String_inj (a a' : Ascii.ascii) (s s' : string) :
  String a s = String a' s' -> a = a' /\ s = s'.
Proof. intros [= -> ->]. now split. Qed.

Lemma square_name_inj i j i' j' :
  i < 8 -> j < 8 -> i' < 8 -> j' < 8 ->
  square_name i j = square_name i' j' -> i = i' /\ j = j'.
Proof.
  intros Hi Hj Hi' Hj'. unfold square_name. intros H.
  apply String_inj in H as [Hc Hd].
  split.
  - apply roomKey_inj in Hd. lia.
  - apply (f_equal nat_of_ascii) in Hc.
    rewrite !nat_ascii_embedding in Hc by lia. lia.
Qed.

(** What [renderBoard] draws in row [rankIndex] and column [fileIndex]: the
    square of the board that [findKing] gives the same name. *)
Lemma renderSquare_coordinates (board : Board) (isFlipped : bool)
    (checkmateSquare : option string) (rankIndex fileIndex : nat) :
  rankIndex < 8 -> fileIndex < 8 ->
  let i := if isFlipped then 7 - rankIndex else rankIndex in
  let j := if isFlipped then 7 - fileIndex else fileIndex in
  renderSquare board isFlipped checkmateSquare rankIndex fileIndex
  = Some {| square := square_name i j;
            piece := at_ board i j;
            isCheckmate := match checkmateSquare with
                           | Some s => String.eqb s (square_name i j)
                           | None => false
                           end |}.
Proof.
  intros Hr Hf.
  destruct rankIndex as [|[|[|[|[|[|[|[|?]]]]]]]];
    [ | | | | | | | |exfalso; lia].
  all: destruct fileIndex as [|[|[|[|[|[|[|[|?]]]]]]]];
    [ | | | | | | | |exfalso; lia].
  all: destruct isFlipped; vm_compute; reflexivity.
Qed.

Lemma Some_inj {A : Type} (x y : A) : Some x = Some y -> x = y.
Proof. now intros [= ->]. Qed.

Lemma findKing_found (board : Board) (turn : Side) (kingSquare : string) :
  findKing board turn = Some kingSquare ->
  exists i j,
    i < 8 /\ j < 8 /\ kingSquare = square_name i j /\
    is_king turn (at_ board i j) = true.
Proof.
  unfold findKing.
  destruct (find _ _) as [[i j]|] eqn:Hfind; [|discriminate].
  intros [= <-]. cbn [fst snd].
  apply find_some in Hfind as [Hin Hking]. cbn [fst snd] in Hking.
  apply in_prod_iff in Hin as [Hi Hj].
  apply in_seq in Hi. apply in_seq in Hj.
  exists i, j. repeat split; try lia. exact Hking.
Qed.

(** X23.  The checkmate mark falls on the mated king, whichever way the
    board is turned: when [findKing] finds a king of the colour, every
    square [renderBoard] marks with its answer is drawn with a king of that
    colour, and there is one. *)
Theorem checkmate_mark_is_on_the_king
    (board : Board) (turn : Side) (isFlipped : bool) (kingSquare : string) :
  findKing board turn = Some kingSquare ->
  (forall rankIndex fileIndex drawn,
      rankIndex < 8 -> fileIndex < 8 ->
      renderSquare board isFlipped (Some kingSquare) rankIndex fileIndex
      = Some drawn ->
      isCheckmate drawn = true ->
      is_king turn (piece drawn) = true) /\
  exists rankIndex fileIndex drawn,
    rankIndex < 8 /\ fileIndex < 8 /\
    renderSquare board isFlipped (Some kingSquare) rankIndex fileIndex
    = Some drawn /\
    isCheckmate drawn = true.
Proof.
  intros Hfound.
  apply findKing_found in Hfound as [i [j [Hi [Hj [-> Hking]]]]].
  split.
  - intros rankIndex fileIndex drawn Hr Hf Hdrawn.
    rewrite (renderSquare_coordinates board isFlipped (Some (square_name i j))
               rankIndex fileIndex Hr Hf) in Hdrawn.
    apply Some_inj in Hdrawn. subst drawn. cbn [isCheckmate piece].
    intros Hname. apply String.eqb_eq in Hname.
    apply square_name_inj in Hname as [Hi' Hj'];
      [|lia | lia | destruct isFlipped; lia ..].
    now rewrite <- Hi', <- Hj'.
  - exists (if isFlipped then 7 - i else i),
           (if isFlipped then 7 - j else j).
    assert (Hr : (if isFlipped then 7 - i else i) < 8)
      by (destruct isFlipped; lia).
    assert (Hf : (if isFlipped then 7 - j else j) < 8)
      by (destruct isFlipped; lia).
    eexists. split; [exact Hr|]. split; [exact Hf|].
    split; [apply (renderSquare_coordinates _ _ _ _ _ Hr Hf)|].
    cbn [isCheckmate]. apply String.eqb_eq.
    destruct isFlipped; f_equal; lia.
Qed.

End BoardFacts.

Lemma checkmate_mark_is_on_the_king_witness :
  exists rankIndex fileIndex drawn,
    rankIndex < 8 /\ fileIndex < 8 /\
    Board.renderSquare
      ([None; None; None; None;
        Some {| Board.type := "k"; Board.color := b |}; None; None; None]
         :: repeat (repeat None 8) 7)
      true (Some "e8") rankIndex fileIndex
    = Some drawn /\
    Board.isCheckmate drawn = true.
Proof.
  exact (proj2 (BoardFacts.checkmate_mark_is_on_the_king
                  ([None; None; None; None;
                    Some {| Board.type := "k"; Board.color := b |};
                    None; None; None]
                     :: repeat (repeat None 8) 7)
                  b true "e8" eq_refl)).
Defined.
